(** * Organization API keys: scope checks, key generation, key lifecycle

    A shallow embedding of the code of the API-key plan documents
    (docs/ORGANIZATION_API_KEYS_PLAN.md and its earlier self-hosted
    revision): the scope checking utility [hasScope], the key generator
    [generateAPIKey], the [api_keys] table with its partial index
    [idx_api_keys_active], the server actions and the request middleware.

    The key service itself (the store behind [verifyKey], [keys.create],
    [keys.revoke], ...) is a hosted service whose code is not part of the
    repository; it is modelled in [Engine] from the specification. *)

From Stdlib Require Import List String Ascii Bool ZArith NArith Lia.
From Stdlib.Strings Require Import Byte.
Import ListNotations.

#[local] Open Scope list_scope.
#[local] Open Scope string_scope.

(* ================================================================== *)
(** * Part I. Definitions *)
(* ================================================================== *)

(** ** Scope checking utility (lib/auth/scopes.ts) *)

Module Scopes.

(** [String.prototype.split] with a one-character separator: the pieces
    between the separators, in order; never the empty array. *)
Fixpoint split (sep : ascii) (s : string) : list string :=
  match s with
  | EmptyString => [EmptyString]
  | String c rest =>
      if Ascii.eqb c sep then EmptyString :: split sep rest
      else match split sep rest with
           | [] => [String c EmptyString]
           | w :: ws => String c w :: ws
           end
  end.

(** [Array.prototype.includes] on an array of strings. *)
Definition includes (arr : list string) (x : string) : bool :=
  existsb (String.eqb x) arr.

(** [hasScope(userScopes, requiredScope)]. [userScopes] has type
    [string[] | undefined]; [None] is [undefined]. An empty array is
    truthy in JavaScript, so only [None] takes the first return. *)
Definition hasScope (userScopes : option (list string))
                    (requiredScope : string) : bool :=
  match userScopes with
  | None => false
  | Some scopes =>
      (* Wildcard access *)
      if includes scopes "*" then true
      (* Exact match *)
      else if includes scopes requiredScope then true
      else
        (* Resource wildcard: const [resource] = requiredScope.split(':') *)
        let resource := hd EmptyString (split ":" requiredScope) in
        if includes scopes (resource ++ ":*") then true
        else false
  end.

(** The words of the specification, for comparison with the code. *)

(** [s] has no separator. *)
Fixpoint noSeparator (s : string) : bool :=
  match s with
  | EmptyString => true
  | String c rest => negb (Ascii.eqb c ":") && noSeparator rest
  end.

(** [res] is the part of [req] before its first [":"]: it has no
    separator, and [req] is [res] itself or [res] followed by [":"] and
    anything. *)
Definition resourceOf (res req : string) : Prop :=
  noSeparator res = true /\
  (req = res \/ exists rest, req = res ++ String ":" rest).

(** The rule of the scope evaluator as the specification words it. *)
Definition grants (granted : list string) (req : string) : Prop :=
  In "*" granted \/
  In req granted \/
  exists res, resourceOf res req /\ In (res ++ ":*") granted.

(** The edge case as the specification words it: a required scope
    without separator is satisfied only by an identical grant or by the
    global wildcard. *)
Definition separatorless_needs_identical_grant : Prop :=
  forall (granted : list string) (req : string),
    noSeparator req = true ->
    hasScope (Some granted) req = true ->
    In req granted \/ In "*" granted.

End Scopes.

(** ** Key generation (section 6.2 of the self-hosted plan) *)

Module KeyGen.

(** The URL-safe base64 alphabet of Node's ['base64url'] encoding. *)
Definition alphabet : string :=
  "ABCDEFGHIJKLMNOPQRSTUVWXYZabcdefghijklmnopqrstuvwxyz0123456789-_".

Definition sextet (n : N) : ascii :=
  match String.get (N.to_nat (N.land n 63)) alphabet with
  | Some c => c
  | None => "A"%char
  end.

(** [buf.toString('base64url')]: three bytes give four characters; a
    remainder of one or two bytes gives two or three, without padding. *)
Fixpoint base64url (buf : list byte) : string :=
  match buf with
  | [] => EmptyString
  | [a] =>
      let x := Byte.to_N a in
      String (sextet (N.shiftr x 2))
        (String (sextet (N.shiftl (N.land x 3) 4)) EmptyString)
  | [a; b] =>
      let x := Byte.to_N a in
      let y := Byte.to_N b in
      String (sextet (N.shiftr x 2))
        (String (sextet (N.lor (N.shiftl (N.land x 3) 4) (N.shiftr y 4)))
           (String (sextet (N.shiftl (N.land y 15) 2)) EmptyString))
  | a :: b :: c :: rest =>
      let x := Byte.to_N a in
      let y := Byte.to_N b in
      let z := Byte.to_N c in
      String (sextet (N.shiftr x 2))
        (String (sextet (N.lor (N.shiftl (N.land x 3) 4) (N.shiftr y 4)))
           (String (sextet (N.lor (N.shiftl (N.land y 15) 2) (N.shiftr z 6)))
              (String (sextet (N.land z 63)) (base64url rest))))
  end.

(** The product tag every key starts with. *)
Definition tag : string := "mc_".

(** [generateAPIKey()], with the 32 bytes drawn by [randomBytes(32)]
    passed in as [bytes]:
    key = `mc_${bytes.toString('base64url')}`, prefix = key.substring(0, 12). *)
Definition generateAPIKey (bytes : list byte) : string * string :=
  let key := tag ++ base64url bytes in
  let prefix := substring 0 12 key in
  (key, prefix).

(** The prefix derivation on its own, as the lookup path applies it to a
    presented secret. *)
Definition prefixOf (key : string) : string := substring 0 12 key.

(** [p] is a leading substring of [s]. *)
Definition leadingSubstring (p s : string) : Prop :=
  exists rest, s = p ++ rest.

End KeyGen.

(** ** Data model (the [APIKey] interface and the PostgreSQL schema) *)

Module Schema.

(** Instants, in milliseconds since the epoch ([Date], [TIMESTAMPTZ]). *)
Definition Timestamp : Type := Z.

(** [subjectType: 'user' | 'organization']. *)
Inductive SubjectType : Type := user | organization.

(** [Record<string, any>], [JSONB]: an object read as its entries. *)
Definition Metadata : Type := list (string * string).

(** [interface APIKey]; an optional field ([?:], a nullable column) is an
    [option]. There is no status column: the table stores timestamps only. *)
Record APIKey : Type := mkAPIKey {
  id : string;
  subject : string;
  subjectType : SubjectType;
  name : string;
  description : option string;
  keyPrefix : string;
  keyHash : string;
  scopes : list string;
  claims : option Metadata;
  createdBy : string;
  lastUsedAt : option Timestamp;
  expiresAt : option Timestamp;
  revokedAt : option Timestamp;
  revokedBy : option string;
  revocationReason : option string;
  createdAt : Timestamp;
  updatedAt : Timestamp
}.

(** [event_type]: 'created', 'used', 'revoked', 'auth_failed'. *)
Inductive EventType : Type :=
  ev_created | ev_used | ev_revoked | ev_auth_failed.

(** A row of [api_key_audit_log]. *)
Record AuditEvent : Type := mkAuditEvent {
  event_id : nat;
  api_key_id : string;
  event_type : EventType;
  actor_id : option string;
  ip_address : option string;
  user_agent : option string;
  metadata : Metadata;
  created_at : Timestamp
}.

Definition isNull {A : Type} (x : option A) : bool :=
  match x with None => true | Some _ => false end.

(** The predicate of the partial index
    [CREATE INDEX idx_api_keys_active ON api_keys(subject)
       WHERE revoked_at IS NULL
         AND (expires_at IS NULL OR expires_at > NOW())],
    with [NOW()] passed in as [now]. *)
Definition idx_api_keys_active (now : Timestamp) (k : APIKey) : bool :=
  isNull (revokedAt k) &&
  (isNull (expiresAt k) ||
   match expiresAt k with
   | Some e => (now <? e)%Z
   | None => false
   end).

End Schema.

(** ** The key service

    Modelled from the spec: the credential store, the verifier, the rate
    limiter, the audit recorder and the key lifecycle manager. The
    repository only calls them ([verifyKey], [unkey.keys.create],
    [unkey.keys.list], [unkey.keys.get], [unkey.keys.revoke],
    [clerkClient.apiKeys.*]); what they do is taken from sections 4.2 to
    4.7 of the specification. Rows and audit events are those of [Schema];
    secrets and prefixes are those of [KeyGen]. *)

Module Engine.
Import Schema.

(** The error taxonomy (section 7), with [DuplicateId] of the store
    (section 4.2). [KeyNotFound] is the [key_not_found] code of the
    plan's error table, for an operation on an identifier the store
    does not hold; [Forbidden] is what the server actions throw when the
    actor is not authorized on the subject. *)
Inductive Error : Type :=
| InvalidKey
| RevokedKey
| ExpiredKey
| InsufficientScope
| RateLimited (wait : Z)
| ScopeExpansionRejected
| AlreadyRevoked
| DuplicateSlug
| DuplicateId
| EntropyUnavailable
| IdentityUnverifiable
| KeyNotFound
| Forbidden.

(** What the service is configured with and cannot be computed here:
    the one-way salted hash, the actor's authorization on a subject
    (resolved through the identity provider), the key-creation quota
    (default: 10 per hour and organization), and the identity under
    which the repository's backend calls the service (the holder of
    [UNKEY_ROOT_KEY], of [CLERK_SECRET_KEY]): the actor of a call that
    names none. *)
Class Platform : Type := {
  hashSecret : string -> string;
  authorizedOn : string -> string -> bool;
  creationCapacity : Z;
  creationInterval : Z;
  serviceActor : string
}.

(** A fixed-window bucket of the rate limiter. *)
Record Bucket : Type := mkBucket {
  windowStart : Timestamp;
  consumed : Z
}.

(** The state of the service: the [api_keys] table in insertion order,
    the append-only audit log (oldest first), the limiter's buckets. *)
Record Store : Type := mkStore {
  keys : list APIKey;
  auditLog : list AuditEvent;
  buckets : list (string * Bucket)
}.

Definition emptyStore : Store := mkStore [] [] [].

(** Operations thread the store and may fail; what an operation wrote
    before it failed stays written. *)
Definition M (A : Type) : Type := Store -> (Error + A) * Store.

Definition ret {A : Type} (a : A) : M A := fun st => (inr a, st).
Definition fail {A : Type} (e : Error) : M A := fun st => (inl e, st).
Definition bind {A B : Type} (m : M A) (f : A -> M B) : M B :=
  fun st =>
    match m st with
    | (inl e, st') => (inl e, st')
    | (inr a, st') => f a st'
    end.
Definition getStore : M Store := fun st => (inr st, st).
Definition setKeys (ks : list APIKey) : M unit :=
  fun st => (inr tt, mkStore ks (auditLog st) (buckets st)).
Definition setBuckets (bs : list (string * Bucket)) : M unit :=
  fun st => (inr tt, mkStore (keys st) (auditLog st) bs).

#[local] Notation "x <- c1 ;; c2" := (bind c1 (fun x => c2))
  (at level 61, c1 at next level, right associativity).
#[local] Notation "c1 ;;; c2" := (bind c1 (fun _ => c2))
  (at level 61, right associativity).

(** *** Credential store (4.2) *)

Definition findByPrefix (st : Store) (prefix : string) : list APIKey :=
  filter (fun k => String.eqb (keyPrefix k) prefix) (keys st).

Definition findById (st : Store) (keyId : string) : option APIKey :=
  find (fun k => String.eqb (id k) keyId) (keys st).

Definition paginate {A : Type} (limit offset : nat) (l : list A) : list A :=
  firstn limit (skipn offset l).

Definition findBySubject (st : Store) (subj : string)
                         (limit offset : nat) : list APIKey :=
  paginate limit offset
    (filter (fun k => String.eqb (subject k) subj) (keys st)).

Definition insert (k : APIKey) : M unit :=
  st <- getStore ;;
  if existsb (fun r => String.eqb (id r) (id k)) (keys st)
  then fail DuplicateId
  else setKeys (keys st ++ [k])%list.

(** The fields an update may write: name, description, claims, and
    scopes (narrowing only). An absent field is left as it is. *)
Record Patch : Type := mkPatch {
  patchName : option string;
  patchDescription : option string;
  patchClaims : option Metadata;
  patchScopes : option (list string)
}.

Definition orElse {A : Type} (x : option A) (d : A) : A :=
  match x with Some a => a | None => d end.

Definition applyPatch (p : Patch) (now : Timestamp) (k : APIKey) : APIKey :=
  mkAPIKey (id k) (subject k) (subjectType k)
    (orElse (patchName p) (name k))
    (match patchDescription p with Some d => Some d | None => description k end)
    (keyPrefix k) (keyHash k)
    (orElse (patchScopes p) (scopes k))
    (match patchClaims p with Some c => Some c | None => claims k end)
    (createdBy k) (lastUsedAt k) (expiresAt k)
    (revokedAt k) (revokedBy k) (revocationReason k)
    (createdAt k) now.

Definition updateRow (keyId : string) (p : Patch) (now : Timestamp) : M unit :=
  st <- getStore ;;
  setKeys (map (fun k => if String.eqb (id k) keyId
                         then applyPatch p now k else k) (keys st)).

Definition setRevocation (actor : string) (reason : option string)
                         (ts : Timestamp) (k : APIKey) : APIKey :=
  mkAPIKey (id k) (subject k) (subjectType k) (name k) (description k)
    (keyPrefix k) (keyHash k) (scopes k) (claims k) (createdBy k)
    (lastUsedAt k) (expiresAt k)
    (Some ts) (Some actor) reason
    (createdAt k) ts.

(** [markRevoked]: the per-record conditional update of section 5, which
    only makes the transition where the revocation timestamp is absent. *)
Definition markRevoked (keyId actor : string) (reason : option string)
                       (ts : Timestamp) : M unit :=
  st <- getStore ;;
  setKeys (map (fun k => if String.eqb (id k) keyId && isNull (revokedAt k)
                         then setRevocation actor reason ts k else k)
               (keys st)).

Definition setLastUsed (ts : Timestamp) (k : APIKey) : APIKey :=
  mkAPIKey (id k) (subject k) (subjectType k) (name k) (description k)
    (keyPrefix k) (keyHash k) (scopes k) (claims k) (createdBy k)
    (Some (match lastUsedAt k with
           | Some t => Z.max t ts
           | None => ts
           end))
    (expiresAt k)
    (revokedAt k) (revokedBy k) (revocationReason k)
    (createdAt k) (updatedAt k).

(** The usage timestamp never goes back (section 8). *)
Definition touchLastUsed (keyId : string) (ts : Timestamp) : M unit :=
  st <- getStore ;;
  setKeys (map (fun k => if String.eqb (id k) keyId
                         then setLastUsed ts k else k) (keys st)).

(** *** Audit recorder (4.6) *)

Definition record (keyId : string) (kind : EventType)
                  (actor : option string) (meta : Metadata)
                  (now : Timestamp) : M unit :=
  fun st =>
    (inr tt,
     mkStore (keys st)
       (auditLog st ++
          [mkAuditEvent (S (List.length (auditLog st))) keyId kind actor
             None None meta now])%list
       (buckets st)).

(** The event [record] appends to the log of [st], for the statements
    below. *)
Definition eventOf (st : Store) (keyId : string) (kind : EventType)
                   (actor : option string) (meta : Metadata)
                   (now : Timestamp) : AuditEvent :=
  mkAuditEvent (S (List.length (auditLog st))) keyId kind actor None None meta now.

(** Newest first. *)
Definition listForKey (st : Store) (keyId : string)
                      (limit offset : nat) : list AuditEvent :=
  paginate limit offset
    (rev (filter (fun e => String.eqb (api_key_id e) keyId) (auditLog st))).

(** *** Rate limiter (4.5), fixed-window policy *)

Fixpoint lookupBucket (bucketKey : string) (bs : list (string * Bucket))
  : option Bucket :=
  match bs with
  | [] => None
  | (k, b) :: rest =>
      if String.eqb k bucketKey then Some b else lookupBucket bucketKey rest
  end.

Fixpoint storeBucket (bucketKey : string) (b : Bucket)
                     (bs : list (string * Bucket)) : list (string * Bucket) :=
  match bs with
  | [] => [(bucketKey, b)]
  | (k, b0) :: rest =>
      if String.eqb k bucketKey then (k, b) :: rest
      else (k, b0) :: storeBucket bucketKey b rest
  end.

Definition checkAndConsume (capacity interval : Z) (bucketKey : string)
                           (cost : Z) (now : Timestamp) : M unit :=
  st <- getStore ;;
  let current :=
    match lookupBucket bucketKey (buckets st) with
    | Some b => if (windowStart b + interval <=? now)%Z
                then mkBucket now 0 else b
    | None => mkBucket now 0
    end in
  if (consumed current + cost <=? capacity)%Z
  then setBuckets (storeBucket bucketKey
                     (mkBucket (windowStart current) (consumed current + cost)%Z)
                     (buckets st))
  else fail (RateLimited (windowStart current + interval - now)%Z).

(** *** Verifier (4.3) *)

Section Service.
Context `{Platform}.

(** Steps (1) to (3): the candidates that share the presented secret's
    prefix, and among them the first whose stored hash is the hash of
    the presented secret. *)
Definition matchCandidate (st : Store) (secret : string) : option APIKey :=
  find (fun k => String.eqb (keyHash k) (hashSecret secret))
       (findByPrefix st (KeyGen.prefixOf secret)).

(** [expiresAt] is present and reached. *)
Definition isExpired (now : Timestamp) (k : APIKey) : bool :=
  match expiresAt k with
  | Some e => (e <=? now)%Z
  | None => false
  end.

(** Steps (4) to (7). The steps name a write for the success alone (7);
    a failure returns its kind and leaves the recording of a failed
    authentication to the caller of the audit recorder. *)
Definition verify (secret : string) (now : Timestamp) : M APIKey :=
  st <- getStore ;;
  match matchCandidate st secret with
  | None => fail InvalidKey
  | Some k =>
      if negb (isNull (revokedAt k)) then fail RevokedKey
      else if isExpired now k then fail ExpiredKey
      else
        touchLastUsed (id k) now ;;;
        record (id k) ev_used None [] now ;;;
        ret k
  end.

(** *** Key lifecycle manager (4.7) *)

(** The arguments of [create]. *)
Record CreateRequest : Type := mkCreateRequest {
  reqActor : string;
  reqSubject : string;
  reqSubjectType : SubjectType;
  reqName : string;
  reqScopes : list string;
  reqClaims : option Metadata;
  reqExpiry : option Timestamp
}.

(** [create]: [newId] is the identifier drawn for the record and
    [entropy] what the secure random source supplied ([None] when it
    could not). Returns the record and the secret. *)
Definition create (req : CreateRequest) (newId : string)
                  (entropy : option (list byte)) (now : Timestamp)
  : M (APIKey * string) :=
  if negb (authorizedOn (reqActor req) (reqSubject req)) then fail Forbidden
  else
    checkAndConsume creationCapacity creationInterval
      ("create:" ++ reqSubject req) 1 now ;;;
    match entropy with
    | None => fail EntropyUnavailable
    | Some bytes =>
        let (secret, prefix) := KeyGen.generateAPIKey bytes in
        let row :=
          mkAPIKey newId (reqSubject req) (reqSubjectType req)
            (reqName req) None prefix (hashSecret secret)
            (reqScopes req) (reqClaims req) (reqActor req)
            None (reqExpiry req) None None None now now in
        insert row ;;;
        record newId ev_created (Some (reqActor req)) [] now ;;;
        ret (row, secret)
    end.

(** The row [create] inserts, for the statements below. *)
Definition rowOf (req : CreateRequest) (newId : string)
                 (bytes : list byte) (now : Timestamp) : APIKey :=
  mkAPIKey newId (reqSubject req) (reqSubjectType req) (reqName req) None
    (snd (KeyGen.generateAPIKey bytes))
    (hashSecret (fst (KeyGen.generateAPIKey bytes)))
    (reqScopes req) (reqClaims req) (reqActor req)
    None (reqExpiry req) None None None now now.

(** Whether every scope of [wanted] is among [current]. *)
Definition subsetOf (wanted current : list string) : bool :=
  forallb (fun s => existsb (String.eqb s) current) wanted.

Definition update (actor keyId : string) (p : Patch) (now : Timestamp)
  : M APIKey :=
  st <- getStore ;;
  match findById st keyId with
  | None => fail KeyNotFound
  | Some k =>
      match patchScopes p with
      | Some wanted =>
          if subsetOf wanted (scopes k)
          then updateRow keyId p now ;;; ret (applyPatch p now k)
          else fail ScopeExpansionRejected
      | None => updateRow keyId p now ;;; ret (applyPatch p now k)
      end
  end.

Definition revoke (actor keyId : string) (reason : option string)
                  (now : Timestamp) : M unit :=
  st <- getStore ;;
  match findById st keyId with
  | None => fail KeyNotFound
  | Some k =>
      if negb (isNull (revokedAt k)) then fail AlreadyRevoked
      else
        markRevoked keyId actor reason now ;;;
        record keyId ev_revoked (Some actor)
          (match reason with Some r => [("reason", r)] | None => [] end)
          now
  end.

(** The status filter of the listing. *)
Inductive StatusFilter : Type := active | revoked | expired | all.

(** The status of a row is computed from its timestamps and the time
    of the read: [active] is the predicate of [idx_api_keys_active]. *)
Definition hasStatus (f : StatusFilter) (now : Timestamp) (k : APIKey) : bool :=
  match f with
  | active => idx_api_keys_active now k
  | revoked => negb (isNull (revokedAt k))
  | expired => isExpired now k
  | all => true
  end.

Definition selectByStatus (st : Store) (subj : string) (f : StatusFilter)
                          (now : Timestamp) : list APIKey :=
  filter (fun k => String.eqb (subject k) subj && hasStatus f now k)
         (keys st).

(** The response of the list endpoint: [data], [totalCount], [hasMore]. *)
Record Page : Type := mkPage {
  data : list APIKey;
  totalCount : nat;
  hasMore : bool
}.

(** [limit] (default 20, at most 100) and [offset] (default 0). *)
Definition effectiveLimit (limit : option nat) : nat :=
  Nat.min (orElse limit 20) 100.

(** [list(subject, statusFilter, pagination)]. *)
Definition listKeys (st : Store) (subj : string) (f : StatusFilter)
                    (limit offset : option nat) (now : Timestamp) : Page :=
  let rows := selectByStatus st subj f now in
  let lim := effectiveLimit limit in
  let off := orElse offset 0 in
  mkPage (paginate lim off rows)
         (List.length rows)
         (Nat.ltb (off + lim) (List.length rows)).

Definition get (st : Store) (keyId : string) : option APIKey :=
  findById st keyId.

(** *** Histories of the service *)

Inductive Op : Type :=
| OpCreate (req : CreateRequest) (newId : string)
           (entropy : option (list byte)) (now : Timestamp)
| OpUpdate (actor keyId : string) (p : Patch) (now : Timestamp)
| OpRevoke (actor keyId : string) (reason : option string) (now : Timestamp)
| OpVerify (secret : string) (now : Timestamp).

(** The store an operation leaves, whether it succeeded or failed. *)
Definition exec (op : Op) (st : Store) : Store :=
  match op with
  | OpCreate req newId entropy now => snd (create req newId entropy now st)
  | OpUpdate actor keyId p now => snd (update actor keyId p now st)
  | OpRevoke actor keyId reason now => snd (revoke actor keyId reason now st)
  | OpVerify secret now => snd (verify secret now st)
  end.

Definition run (ops : list Op) (st : Store) : Store :=
  fold_left (fun s op => exec op s) ops st.

(** Two secrets the store cannot tell apart: same hash, same prefix. *)
Definition sameDigest (s1 s2 : string) : Prop :=
  hashSecret s1 = hashSecret s2 /\
  KeyGen.prefixOf s1 = KeyGen.prefixOf s2.

(** Two operations that differ at most in a secret, replaced by one
    with the same hash and prefix: the entropy of a creation, the
    secret presented to a verification. *)
Inductive opSim : Op -> Op -> Prop :=
| simCreate (req : CreateRequest) (newId : string) (b1 b2 : list byte)
            (now : Timestamp) :
    sameDigest (fst (KeyGen.generateAPIKey b1))
               (fst (KeyGen.generateAPIKey b2)) ->
    opSim (OpCreate req newId (Some b1) now) (OpCreate req newId (Some b2) now)
| simVerify (s1 s2 : string) (now : Timestamp) :
    sameDigest s1 s2 ->
    opSim (OpVerify s1 now) (OpVerify s2 now)
| simSame (op : Op) : opSim op op.

End Service.

(** What every later state keeps of a row: identifier, owner, secret
    material, creation and expiry are fixed; scopes only shrink; a
    revocation, once recorded, stays as recorded. *)
Definition evolves (k k' : APIKey) : Prop :=
  id k' = id k /\
  subject k' = subject k /\
  subjectType k' = subjectType k /\
  keyPrefix k' = keyPrefix k /\
  keyHash k' = keyHash k /\
  createdBy k' = createdBy k /\
  createdAt k' = createdAt k /\
  expiresAt k' = expiresAt k /\
  incl (scopes k') (scopes k) /\
  (forall t, revokedAt k = Some t ->
     revokedAt k' = Some t /\
     revokedBy k' = revokedBy k /\
     revocationReason k' = revocationReason k).

(** The store holds the identifier [keyId], and every row that carries
    it is revoked. *)
Definition revokedEverywhere (keyId : string) (st : Store) : Prop :=
  (exists k, In k (keys st) /\ id k = keyId) /\
  (forall k, In k (keys st) -> id k = keyId -> revokedAt k <> None).

(** The shape of the table after one operation: the rows it had, each
    rewritten in place with its identifier kept and a recorded
    revocation kept, followed by rows with identifiers it did not hold. *)
Definition stepShape (st st' : Store) (f : APIKey -> APIKey)
                     (added : list APIKey) : Prop :=
  keys st' = (map f (keys st) ++ added)%list /\
  (forall r, id (f r) = id r) /\
  (forall r, revokedAt r <> None -> revokedAt (f r) <> None) /\
  (forall a r, In a added -> In r (keys st) -> id a <> id r) /\
  (forall keyId k, get st keyId = Some k -> evolves k (f k)).

End Engine.

(** ** Numbers of the server actions *)

Module Numbers.

(** The server actions compute the expiry of a key with JavaScript
    numbers. A number is embedded as the integer it holds, and [+] and
    [*] as the integers' own: this is the arithmetic of the source as
    long as the operands and the result are safe integers, where
    binary64 is exact. Statements about a computed expiry assume that
    range; a fractional or [NaN] argument has no counterpart here. *)
Definition MAX_SAFE_INTEGER : Z := 2 ^ 53 - 1.

(** [Number.isSafeInteger] on an integer. *)
Definition isSafeInteger (n : Z) : bool :=
  (- MAX_SAFE_INTEGER <=? n)%Z && (n <=? MAX_SAFE_INTEGER)%Z.

End Numbers.

(** ** Server actions and request middleware (Clerk + Unkey plan) *)

Module UnkeyPlan.
Import Schema Engine.

(** What Clerk's [auth()] returns: [{ userId, orgId }], each a string or
    null. *)
Record ClerkAuth : Type := mkClerkAuth {
  userId : option string;
  orgId : option string
}.

(** JavaScript truthiness of a [string | null | undefined]: null,
    undefined and the empty string are falsy. *)
Definition truthy (s : option string) : bool :=
  match s with
  | Some (String _ _) => true
  | _ => false
  end.

(** A call either returns or throws [new Error(message)]. *)
Inductive Outcome (A : Type) : Type :=
| Returned (a : A)
| Thrown (message : string).
Arguments Returned {A} a.
Arguments Thrown {A} message.

(** [error.message] of a failure of the key service. *)
Definition errorMessage (e : Error) : string :=
  match e with
  | InvalidKey => "InvalidKey"
  | RevokedKey => "RevokedKey"
  | ExpiredKey => "ExpiredKey"
  | InsufficientScope => "InsufficientScope"
  | RateLimited _ => "RateLimited"
  | ScopeExpansionRejected => "ScopeExpansionRejected"
  | AlreadyRevoked => "AlreadyRevoked"
  | DuplicateSlug => "DuplicateSlug"
  | DuplicateId => "DuplicateId"
  | EntropyUnavailable => "EntropyUnavailable"
  | IdentityUnverifiable => "IdentityUnverifiable"
  | KeyNotFound => "KeyNotFound"
  | Forbidden => "Forbidden"
  end.

(** The Clerk backend client: [users.getUser(id)] resolves ([true]) or
    rejects ([false]); [users.getOrganizationMembershipList({userId})]
    resolves to the identifiers of the user's organizations or rejects
    ([None]). *)
Class IdentityProvider : Type := {
  getUser : string -> bool;
  getOrganizationMembershipList : string -> option (list string)
}.

(** [data] of [createApiKey]. *)
Record CreateData : Type := mkCreateData {
  dataName : string;
  dataScopes : list string;
  expiresIn : option Z
}.

(** What [createApiKey] returns: [{ keyId, key }]. *)
Record CreatedKey : Type := mkCreatedKey {
  keyId : string;
  key : string
}.

(** An element of what [listApiKeys] returns:
    [{ id, name, createdAt, expires }]. *)
Record KeySummary : Type := mkKeySummary {
  summaryId : string;
  summaryName : string;
  summaryCreatedAt : Timestamp;
  summaryExpires : option Timestamp
}.

(** [meta] of a key: [{ clerkUserId, clerkOrgId, scopes }]. *)
Record KeyMeta : Type := mkKeyMeta {
  clerkUserId : option string;
  clerkOrgId : option string;
  metaScopes : option (list string)
}.

(** [result] of [verifyKey]. *)
Record VerifyResult : Type := mkVerifyResult {
  resultValid : bool;
  resultCode : option Error;
  resultMeta : option KeyMeta
}.

(** [{ result, error }] of [verifyKey]; [error] is the message of a
    failed call, not of an invalid key. *)
Record VerifyResponse : Type := mkVerifyResponse {
  result : VerifyResult;
  error : option string
}.

(** [interface ApiKeyAuthResult { valid, userId?, orgId?, scopes?, error? }]. *)
Record ApiKeyAuthResult : Type := mkApiKeyAuthResult {
  valid : bool;
  authUserId : option string;
  authOrgId : option string;
  authScopes : option (list string);
  authError : option string
}.

(** The headers [withAuth] reads: [x-api-key] and [authorization]. *)
Record Request : Type := mkRequest {
  xApiKey : option string;
  authorization : option string
}.

Inductive AuthMethod : Type := api_key | session.

(** The object [withAuth] returns on success:
    [{ userId, orgId, scopes, authMethod }]. *)
Record AuthContext : Type := mkAuthContext {
  ctxUserId : option string;
  ctxOrgId : option string;
  ctxScopes : option (list string);
  authMethod : AuthMethod
}.

(** [new Response(JSON.stringify({ error }), { status })]. *)
Record Response : Type := mkResponse {
  responseError : option string;
  status : nat
}.

Section Actions.
Context `{Platform} `{IdentityProvider}.

(** [createApiKey(data)] under the session [sess], at [Date.now() = now].
    The [ratelimit] of the call is the same constant for every key
    (1000 requests per minute); it configures the limiter of requests
    made with the key and is not part of the stored record. *)
Definition createApiKey (sess : ClerkAuth) (data : CreateData)
                        (newId : string) (entropy : option (list byte))
                        (now : Timestamp) (st : Store)
  : Outcome CreatedKey * Store :=
  (* 1. Get Clerk auth context *)
  if negb (truthy (userId sess)) then (Thrown "Unauthorized", st)
  else
    let uid := orElse (userId sess) "" in
    (* 2. Determine the owner (org takes precedence) *)
    let ownerId := orElse (orgId sess) uid in
    (* 3. Create key, linking to Clerk identity *)
    let expires :=
      match expiresIn data with
      | Some n => if (n =? 0)%Z then None else Some (now + n * 1000)%Z
      | None => None
      end in
    let req :=
      mkCreateRequest uid ownerId
        (match orgId sess with Some _ => organization | None => user end)
        (dataName data) (dataScopes data) None expires in
    match create req newId entropy now st with
    | (inl e, st') => (Thrown (errorMessage e), st')
    (* 4. Return the key (secret only shown once!) *)
    | (inr (row, secret), st') => (Returned (mkCreatedKey (id row) secret), st')
    end.

(** [listApiKeys()]. [unkey.keys.list] is called with the owner and
    nothing else: the service answers with its first page, of the
    default size. *)
Definition listApiKeys (sess : ClerkAuth) (st : Store)
  : Outcome (list KeySummary) :=
  if negb (truthy (userId sess)) then Thrown "Unauthorized"
  else
    let uid := orElse (userId sess) "" in
    let ownerId := orElse (orgId sess) uid in
    Returned
      (map (fun k => mkKeySummary (id k) (name k) (createdAt k) (expiresAt k))
           (findBySubject st ownerId (effectiveLimit None) 0)).

(** [revokeApiKey(keyId)]. [unkey.keys.revoke({ keyId })] names neither
    actor nor reason: the service attributes the revocation to its
    caller, [serviceActor]. *)
Definition revokeApiKey (sess : ClerkAuth) (keyId : string)
                        (now : Timestamp) (st : Store)
  : Outcome bool * Store :=
  if negb (truthy (userId sess)) then (Thrown "Unauthorized", st)
  else
    let uid := orElse (userId sess) "" in
    (* Verify the key belongs to this user/org before revoking *)
    let keyInfo := get st keyId in
    let ownerId := orElse (orgId sess) uid in
    match keyInfo with
    | None => (Thrown "Forbidden", st)
    | Some info =>
        if negb (String.eqb (subject info) ownerId)
        then (Thrown "Forbidden", st)
        else
          match revoke serviceActor keyId None now st with
          | (inl e, st') => (Thrown (errorMessage e), st')
          | (inr _, st') => (Returned true, st')
          end
    end.

(** Modelled from the spec: [verifyKey] of the key service, the
    verifier of section 4.3 answering in the shape the middleware
    reads ([result.valid], [result.meta], [error]). *)
Definition verifyKey (apiKey : string) (now : Timestamp) (st : Store)
  : VerifyResponse * Store :=
  match verify apiKey now st with
  | (inr k, st') =>
      (mkVerifyResponse
         (mkVerifyResult true None
            (Some (mkKeyMeta (Some (createdBy k))
                     (match subjectType k with
                      | organization => Some (subject k)
                      | user => None
                      end)
                     (Some (scopes k)))))
         None, st')
  | (inl e, st') =>
      (mkVerifyResponse (mkVerifyResult false (Some e) None) None, st')
  end.

Definition invalid (message : string) : ApiKeyAuthResult :=
  mkApiKeyAuthResult false None None None (Some message).

(** [authenticateApiKey(apiKey)]. *)
Definition authenticateApiKey (apiKey : string) (now : Timestamp)
                              (st : Store) : ApiKeyAuthResult * Store :=
  (* 1. Verify the key *)
  let (response, st') := verifyKey apiKey now st in
  match error response with
  | Some message => (invalid message, st')
  | None =>
      if negb (resultValid (result response))
      then (invalid "Invalid or revoked API key", st')
      else
        (* 2. Extract Clerk IDs from the key's metadata *)
        let m := resultMeta (result response) in
        let clerkUserId' := match m with Some x => clerkUserId x | None => None end in
        let clerkOrgId' := match m with Some x => clerkOrgId x | None => None end in
        let scopes' := match m with Some x => metaScopes x | None => None end in
        (* 3. Optionally verify user still exists in Clerk *)
        if negb (match clerkUserId' with Some u => getUser u | None => false end)
        then (invalid "User no longer exists", st')
        else
          (* 4. Optionally verify org membership still valid *)
          if truthy clerkOrgId'
          then
            match getOrganizationMembershipList (orElse clerkUserId' "") with
            | None => (invalid "Organization verification failed", st')
            | Some memberships =>
                if existsb (fun o => String.eqb o (orElse clerkOrgId' ""))
                           memberships
                then (mkApiKeyAuthResult true clerkUserId' clerkOrgId' scopes' None, st')
                else (invalid "User no longer in organization", st')
            end
          else (mkApiKeyAuthResult true clerkUserId' clerkOrgId' scopes' None, st')
  end.

(** [withAuth(request)] under the session [sess]. *)
Definition withAuth (request : Request) (sess : ClerkAuth)
                    (now : Timestamp) (st : Store)
  : (Response + AuthContext) * Store :=
  (* Path 1: API Key authentication *)
  if truthy (xApiKey request)
  then
    let (res, st') := authenticateApiKey (orElse (xApiKey request) "") now st in
    if negb (valid res)
    then (inl (mkResponse (authError res) 401), st')
    else (inr (mkAuthContext (authUserId res) (authOrgId res)
                 (authScopes res) api_key), st')
  else
    (* Path 2: Clerk session authentication *)
    if truthy (userId sess)
    then (inr (mkAuthContext (userId sess) (orgId sess) (Some ["*"]) session), st)
    else (inl (mkResponse (Some "Unauthorized") 401), st).

(** The guard of a protected route (3.6): the response of [withAuth]
    when it is one, 403 when the scope check fails, and otherwise the
    owner whose resources are served ([orgId ?? userId]). *)
Definition protectedRoute (requiredScope : string) (request : Request)
                          (sess : ClerkAuth) (now : Timestamp) (st : Store)
  : (Response + option string) * Store :=
  match withAuth request sess now st with
  | (inl response, st') => (inl response, st')
  | (inr ctx, st') =>
      if negb (Scopes.hasScope (ctxScopes ctx) requiredScope)
      then (inl (mkResponse (Some "Insufficient scope") 403), st')
      else (inr (match ctxOrgId ctx with
                 | Some o => Some o
                 | None => ctxUserId ctx
                 end), st')
  end.

End Actions.

End UnkeyPlan.

(** ** Server actions of the Clerk-only plan *)

Module ClerkPlan.
Import Schema Engine.
Import UnkeyPlan (ClerkAuth, userId, orgId, truthy, Outcome, Returned, Thrown, errorMessage).

Section Actions.
Context `{Platform}.

(** [revokeApiKey(keyId, reason?)]; [clerkClient.apiKeys.get] and
    [clerkClient.apiKeys.revoke] reject with the service's error. The
    call names the key and the reason, no actor: the service attributes
    the revocation to its caller, [serviceActor]. *)
Definition revokeApiKey (sess : ClerkAuth) (keyId : string)
                        (reason : option string)
                        (now : Timestamp) (st : Store)
  : Outcome bool * Store :=
  if negb (truthy (userId sess)) || negb (truthy (orgId sess))
  then (Thrown "Unauthorized", st)
  else
    (* Verify key belongs to this org *)
    match get st keyId with
    | None => (Thrown (errorMessage KeyNotFound), st)
    | Some k =>
        if negb (String.eqb (subject k) (orElse (orgId sess) ""))
        then (Thrown "Forbidden", st)
        else
          match revoke serviceActor keyId reason now st with
          | (inl e, st') => (Thrown (errorMessage e), st')
          | (inr _, st') => (Returned true, st')
          end
    end.

End Actions.

End ClerkPlan.

(** ** A small deployment to run the definitions on *)

Module Fixture.
Import Schema Engine UnkeyPlan.

(** A stand-in for the hash that can be evaluated: the first sixteen
    characters of the secret. It is not one-way; it serves to run the
    operations on concrete stores, and it lets two different secrets
    share a hash. *)
Definition toyHash (secret : string) : string := substring 0 16 secret.

Definition platform : Platform :=
  Build_Platform toyHash (fun _ _ => true) 10%Z 3600000%Z "root".

Definition clerk : IdentityProvider :=
  Build_IdentityProvider (fun _ => true) (fun _ => Some ["org_xyz"]).

Definition zeros : list byte := repeat x00%byte 32.
Definition ones : list byte := repeat x01%byte 32.
(** [zeros] with another last byte: another secret with the same
    leading characters. *)
Definition zeros' : list byte := (repeat x00%byte 31 ++ [xff%byte])%list.

Definition secretOf (bytes : list byte) : string :=
  fst (KeyGen.generateAPIKey bytes).

Definition request (scopes : list string) (expiry : option Timestamp)
  : CreateRequest :=
  mkCreateRequest "user_abc123" "org_xyz" organization "CI/CD Pipeline"
    scopes None expiry.

(** One key with the scope ["projects:read"], created at time 1000. *)
Definition created : Store :=
  @exec platform
    (OpCreate (request ["projects:read"] None) "key_1" (Some zeros) 1000%Z)
    emptyStore.

(** The same store after the key was revoked at time 2000. *)
Definition afterRevoke : Store :=
  @exec platform (OpRevoke "user_abc123" "key_1" (Some "rotated") 2000%Z)
    created.

(** A store with one key that expires at time 1500. *)
Definition expiring : Store :=
  @exec platform
    (OpCreate (request ["exports:write"] (Some 1500%Z)) "key_2"
       (Some ones) 1000%Z)
    emptyStore.

(** A store with one key with the scope ["exports:write"] and no expiry,
    and the same store after the key was revoked with reason "rotated". *)
Definition exporting : Store :=
  @exec platform
    (OpCreate (request ["exports:write"] None) "key_3" (Some ones) 1000%Z)
    emptyStore.

Definition exportingRevoked : Store :=
  @exec platform (OpRevoke "user_abc123" "key_3" (Some "rotated") 2000%Z)
    exporting.

(** A session of a signed-in member of the organization. *)
Definition interactive : ClerkAuth :=
  mkClerkAuth (Some "user_abc123") (Some "org_xyz").

End Fixture.

(** ** Server actions of the Clerk-only plan: create and list *)

Module ClerkActions.
Import Schema Engine.
Import UnkeyPlan (ClerkAuth, userId, orgId, truthy, Outcome, Returned, Thrown, errorMessage).

(** [data] of [createApiKey]: [{ name, scopes?, expiresInDays? }]. *)
Record CreateData : Type := mkCreateData {
  dataName : string;
  dataScopes : option (list string);
  expiresInDays : option Z
}.

(** What [createApiKey] returns: [{ id, name, secret, createdAt }]. *)
Record CreatedKey : Type := mkCreatedKey {
  createdId : string;
  createdName : string;
  secret : string;
  createdKeyAt : Timestamp
}.

(** An element of what [listApiKeys] returns:
    [{ id, name, createdAt, lastUsedAt, expiresAt, scopes, createdBy }]. *)
Record KeyRow : Type := mkKeyRow {
  rowId : string;
  rowName : string;
  rowCreatedAt : Timestamp;
  rowLastUsedAt : option Timestamp;
  rowExpiresAt : option Timestamp;
  rowScopes : list string;
  rowCreatedBy : string
}.

Section Actions.
Context `{Platform}.

(** [secondsUntilExpiration]:
    [data.expiresInDays ? data.expiresInDays * 24 * 60 * 60 : undefined];
    0 is falsy. *)
Definition secondsUntilExpiration (days : option Z) : option Z :=
  match days with
  | Some d => if (d =? 0)%Z then None else Some (d * 24 * 60 * 60)%Z
  | None => None
  end.

(** [createApiKey(data)] under the session [sess]; the service turns
    the seconds until expiration into the instant [expiresAt]. *)
Definition createApiKey (sess : ClerkAuth) (data : CreateData)
                        (newId : string) (entropy : option (list byte))
                        (now : Timestamp) (st : Store)
  : Outcome CreatedKey * Store :=
  if negb (truthy (userId sess)) || negb (truthy (orgId sess))
  then (Thrown "Must be in an organization to create API keys", st)
  else
    let req :=
      mkCreateRequest (orElse (userId sess) "") (orElse (orgId sess) "")
        organization (dataName data) (orElse (dataScopes data) []) None
        (match secondsUntilExpiration (expiresInDays data) with
         | Some seconds => Some (now + seconds * 1000)%Z
         | None => None
         end) in
    match create req newId entropy now st with
    | (inl e, st') => (Thrown (errorMessage e), st')
    (* IMPORTANT: apiKey.secret is only available here, never again! *)
    | (inr (row, plain), st') =>
        (Returned (mkCreatedKey (id row) (name row) plain (createdAt row)), st')
    end.

(** [listApiKeys()]. [clerkClient.apiKeys.getAll] is called with the
    subject and nothing else: the service answers with its first page,
    of the default size. *)
Definition listApiKeys (sess : ClerkAuth) (st : Store) : Outcome (list KeyRow) :=
  if negb (truthy (orgId sess)) then Thrown "Must be in an organization"
  else
    Returned
      (map (fun k => mkKeyRow (id k) (name k) (createdAt k) (lastUsedAt k)
                       (expiresAt k) (scopes k) (createdBy k))
           (findBySubject st (orElse (orgId sess) "") (effectiveLimit None) 0)).

End Actions.

End ClerkActions.

(** ** Webhook: the default key of a new organization *)

Module ClerkWebhook.
Import Schema Engine.

(** [event.data] of an [organization.created] event, as the route
    destructures it: [{ id, name, created_by }]. *)
Record OrganizationData : Type := mkOrganizationData {
  orgDataId : string;
  orgDataName : string;
  created_by : string
}.

(** A verified event: [{ type, data }]. *)
Record WebhookEvent : Type := mkWebhookEvent {
  eventType : string;
  eventData : OrganizationData
}.

(** [new Response(body, { status })]. *)
Record TextResponse : Type := mkTextResponse {
  body : string;
  responseStatus : nat
}.

Section Route.
Context `{Platform}.

(** The request the route sends for the default key. *)
Definition defaultKeyRequest (data : OrganizationData) : CreateRequest :=
  mkCreateRequest (created_by data) (orgDataId data) organization
    "Default API Key" ["projects:read"; "exports:read"] None None.

(** [POST(req)]; [verified] is what [verifyWebhook(payload, headers)]
    resolved to, [None] when it threw. A failure of the key creation is
    caught and logged: the webhook still answers OK. *)
Definition POST (verified : option WebhookEvent) (newId : string)
                (entropy : option (list byte)) (now : Timestamp) (st : Store)
  : TextResponse * Store :=
  match verified with
  | None => (mkTextResponse "Webhook verification failed" 400, st)
  | Some event =>
      (* Handle organization.created event *)
      if String.eqb (eventType event) "organization.created"
      then
        match create (defaultKeyRequest (eventData event)) newId entropy now st with
        | (inl _, st') => (mkTextResponse "OK" 200, st')
        | (inr _, st') => (mkTextResponse "OK" 200, st')
        end
      else (mkTextResponse "OK" 200, st)
  end.

End Route.

End ClerkWebhook.

(** ** The API keys page of the dashboard *)

Module Dashboard.
Import Schema Engine.
Import UnkeyPlan (ClerkAuth, Outcome, Returned, Thrown).

(** [Boolean(s)] on a string: only the empty string is falsy. *)
Definition nonEmpty (s : string) : bool :=
  match s with
  | EmptyString => false
  | String _ _ => true
  end.

(** [(formData.get('scopes') as string)?.split(',').filter(Boolean)];
    [None] is a missing field. *)
Definition parseScopes (field : option string) : option (list string) :=
  match field with
  | Some text => Some (filter nonEmpty (Scopes.split "," text))
  | None => None
  end.

(** The two fields of the creation form. *)
Record FormData : Type := mkFormData {
  formName : option string;
  formScopes : option string
}.

Section Page.
Context `{Platform}.

(** [handleCreate(formData)]: the new value of [newKeySecret], given its
    old value; when the action throws, the state is not set. *)
Definition handleCreate (sess : ClerkAuth) (formData : FormData)
                        (newKeySecret : option string)
                        (newId : string) (entropy : option (list byte))
                        (now : Timestamp) (st : Store)
  : option string * Store :=
  match ClerkActions.createApiKey sess
          (ClerkActions.mkCreateData (orElse (formName formData) "")
             (parseScopes (formScopes formData)) None)
          newId entropy now st with
  | (Returned result, st') => (Some (ClerkActions.secret result), st')
  | (Thrown _, st') => (newKeySecret, st')
  end.

End Page.

(** The words to compare [parseScopes] with: [s] has no comma. *)
Fixpoint noComma (s : string) : bool :=
  match s with
  | EmptyString => true
  | String c rest => negb (Ascii.eqb c ",") && noComma rest
  end.

End Dashboard.

(** ** The showcase carousel of the documentation site *)

Module Showcase.

(** [interface ShowcaseItem]. *)
Record ShowcaseItem : Type := mkShowcaseItem {
  itemId : string;
  title : string;
  itemDescription : string;
  videoId : option string;
  imageUrl : option string;
  link : option string
}.

Definition ShowcaseItems : list ShowcaseItem :=
  [ mkShowcaseItem "1" "Animated Diagrams"
      "Create beautiful animated diagrams and flowcharts"
      (Some "R6vQ9VmMz2w") None None;
    mkShowcaseItem "2" "Code Animations"
      "Visualize code execution step by step"
      (Some "WTUafAwrunE") None None;
    mkShowcaseItem "3" "Math Visualizations"
      "Bring mathematical concepts to life"
      (Some "Ey9bHQs7khs") None None;
    mkShowcaseItem "4" "Data Stories"
      "Tell compelling stories with animated data"
      (Some "P1Z1ZmZqWXA") None None ].

Definition itemCount : Z := Z.of_nat (List.length ShowcaseItems).

(** [goToPrevious]: the index handed to [scrollToIndex]. *)
Definition goToPrevious (activeIndex : Z) : Z :=
  if (activeIndex >? 0)%Z then (activeIndex - 1)%Z else (itemCount - 1)%Z.

(** [goToNext]: the index handed to [scrollToIndex]. *)
Definition goToNext (activeIndex : Z) : Z :=
  if (activeIndex <? itemCount - 1)%Z then (activeIndex + 1)%Z else 0%Z.

(** [scrollToIndex(index)]: the [left] of the scroll, for a carousel of
    width [itemWidth]. *)
Definition scrollToIndex (itemWidth index : Z) : Z := (index * itemWidth)%Z.

End Showcase.

(** ** Words for the statements about the encoding *)

Module Encoding.

(** A letter, a digit, ['-'] or ['_']: what may stand in a URL or a
    header without escaping. *)
Definition urlSafe (c : ascii) : bool :=
  let n := nat_of_ascii c in
  (Nat.leb 65 n && Nat.leb n 90) || (Nat.leb 97 n && Nat.leb n 122) ||
  (Nat.leb 48 n && Nat.leb n 57) || Nat.eqb n 45 || Nat.eqb n 95.

(** Every character of [s] is URL-safe. *)
Fixpoint allUrlSafe (s : string) : bool :=
  match s with
  | EmptyString => true
  | String c rest => urlSafe c && allUrlSafe rest
  end.

(** [f] holds of every number below [n]. *)
Fixpoint allBelow (n : nat) (f : N -> bool) : bool :=
  match n with
  | O => true
  | S k => f (N.of_nat k) && allBelow k f
  end.

(** The position of a character in the alphabet (64 when it is not there). *)
Fixpoint position (c : ascii) (alphabet : string) : N :=
  match alphabet with
  | EmptyString => 0
  | String a rest => if Ascii.eqb a c then 0 else N.succ (position c rest)
  end.

(** The four six-bit groups of three bytes, as the encoder forms them. *)
Definition group1 (x : N) : N := N.land (N.shiftr x 2) 63.
Definition group2 (x y : N) : N :=
  N.land (N.lor (N.shiftl (N.land x 3) 4) (N.shiftr y 4)) 63.
Definition group3 (y z : N) : N :=
  N.land (N.lor (N.shiftl (N.land y 15) 2) (N.shiftr z 6)) 63.
Definition group4 (z : N) : N := N.land (N.land z 63) 63.

(** The bytes back from the groups. *)
Definition byte1 (g1 g2 : N) : N := N.lor (N.shiftl g1 2) (N.shiftr g2 4).
Definition byte2 (g2 g3 : N) : N :=
  N.lor (N.shiftl (N.land g2 15) 4) (N.shiftr g3 2).
Definition byte3 (g3 g4 : N) : N := N.lor (N.shiftl (N.land g3 3) 6) g4.

End Encoding.

(* ================================================================== *)
(** * Part II. Properties *)
(* ================================================================== *)

(** ** The scope evaluator *)

Section ScopeFacts.
Import Scopes.

Lemma includes_In (arr : list string) (x : string) :
  includes arr x = true <-> In x arr.
Proof.
  unfold includes. rewrite existsb_exists. split.
  - intros [y [Hy Heq]]. apply String.eqb_eq in Heq. now subst.
  - intros Hin. exists x. split; [assumption | apply String.eqb_refl].
Qed.

(** The first piece of a split string, one character at a time. *)
Lemma hd_split_cons (c : ascii) (rest : string) :
  hd EmptyString (split ":" (String c rest)) =
  if Ascii.eqb c ":" then EmptyString
  else String c (hd EmptyString (split ":" rest)).
Proof.
  simpl. destruct (Ascii.eqb c ":"); [reflexivity |].
  destruct (split ":" rest); reflexivity.
Qed.

(** The destructured [resource] is the part before the first separator. *)
Lemma hd_split_resourceOf (req : string) :
  resourceOf (hd EmptyString (split ":" req)) req.
Proof.
  induction req as [| c rest IH].
  - split; [reflexivity | now left].
  - rewrite hd_split_cons. destruct (Ascii.eqb c ":") eqn:Hc.
    + apply Ascii.eqb_eq in Hc. subst c.
      split; [reflexivity | right; now exists rest].
    + destruct IH as [Hno [Heq | [tl Heq]]].
      * split; [simpl; now rewrite Hc, Hno | left; now rewrite <- Heq].
      * split; [simpl; now rewrite Hc, Hno |].
        right. exists tl. simpl. now rewrite <- Heq.
Qed.

(** And nothing else is. *)
Lemma resourceOf_hd_split (res req : string) :
  resourceOf res req -> res = hd EmptyString (split ":" req).
Proof.
  revert req. induction res as [| c r IH]; intros req [Hno Hreq].
  - destruct Hreq as [-> | [tl ->]]; reflexivity.
  - simpl in Hno. apply andb_prop in Hno as [Hc Hr].
    apply negb_true_iff in Hc.
    assert (Hstep : forall tail, resourceOf r tail ->
              String c r = hd EmptyString (split ":" (String c tail))).
    { intros tail Htail. rewrite hd_split_cons, Hc. f_equal. now apply IH. }
    destruct Hreq as [-> | [tl ->]].
    + apply Hstep. split; [assumption | now left].
    + apply (Hstep (r ++ String ":" tl)).
      split; [assumption | right; now exists tl].
Qed.

(** A string without separator is its own resource. *)
Lemma hd_split_noSeparator (req : string) :
  noSeparator req = true -> hd EmptyString (split ":" req) = req.
Proof.
  intros Hno. symmetry. apply resourceOf_hd_split.
  split; [assumption | now left].
Qed.

Lemma hasScope_Some (granted : list string) (req : string) :
  hasScope (Some granted) req =
  includes granted "*" || includes granted req ||
  includes granted (hd EmptyString (split ":" req) ++ ":*").
Proof.
  unfold hasScope.
  destruct (includes granted "*"), (includes granted req),
    (includes granted (hd EmptyString (split ":" req) ++ ":*")); reflexivity.
Qed.

Lemma hasScope_grants (granted : list string) (req : string) :
  hasScope (Some granted) req = true <-> grants granted req.
Proof.
  rewrite hasScope_Some, !orb_true_iff, !includes_In. unfold grants. split.
  - intros [[Hw | He] | Hr]; [now left | right; now left |].
    right; right. exists (hd EmptyString (split ":" req)).
    split; [apply hd_split_resourceOf | assumption].
  - intros [Hw | [He | [res [Hres Hin]]]];
      [left; now left | left; now right |].
    right. now rewrite <- (resourceOf_hd_split res req Hres).
Qed.

(** C1. For every granted scope set and required scope, [hasScope]
    answers true exactly when the grant holds ["*"], or the required
    scope itself, or ["<resource>:*"] for the part of the required scope
    before its first [":"]; a grant of ["projects:*"] gives
    ["projects:read"], a grant of ["projects:read"] does not give
    ["projects:write"], and a grant of ["*"] gives every scope. The
    check is a function of its two arguments alone. *)
Theorem hasScope_rule :
  (forall (granted : list string) (req : string),
      hasScope (Some granted) req = true <-> grants granted req) /\
  hasScope (Some ["projects:*"]) "projects:read" = true /\
  hasScope (Some ["projects:read"]) "projects:write" = false /\
  (forall s : string, hasScope (Some ["*"]) s = true).
Proof.
  split; [exact hasScope_grants |].
  split; [reflexivity |]. split; [reflexivity |].
  intros s. apply hasScope_grants. left. now left.
Qed.

(** C4, as stated, fails: the grant ["projects:*"] satisfies the
    required scope ["projects"], which has no separator, although the
    grant holds neither ["projects"] nor ["*"]. *)
Lemma separatorless_resource_grant_counterexample :
  ~ separatorless_needs_identical_grant.
Proof.
  unfold separatorless_needs_identical_grant. intros Hclaim.
  destruct (Hclaim ["projects:*"] "projects" eq_refl eq_refl) as [Hin | Hin];
    simpl in Hin; destruct Hin as [Heq | []]; discriminate Heq.
Qed.

(** C4, amended. A required scope without separator is its own
    resource: it is satisfied exactly when the grant holds ["*"], the
    identical string, or that string followed by [":*"]. *)
Theorem hasScope_separatorless (granted : list string) (req : string) :
  noSeparator req = true ->
  (hasScope (Some granted) req = true <->
   In "*" granted \/ In req granted \/ In (req ++ ":*") granted).
Proof.
  intros Hno.
  rewrite hasScope_Some, (hd_split_noSeparator req Hno).
  rewrite !orb_true_iff, !includes_In. tauto.
Qed.

Lemma hasScope_separatorless_witness :
  noSeparator "projects" = true /\
  (hasScope (Some ["projects:*"]) "projects" = true <->
   In "*" ["projects:*"] \/ In "projects" ["projects:*"] \/
   In ("projects" ++ ":*") ["projects:*"]).
Proof.
  split; [reflexivity |].
  apply (hasScope_separatorless ["projects:*"] "projects"). reflexivity.
Defined.

(** C10. With the granted scopes absent ([undefined]) the check returns
    false for every required scope; it does not fail. *)
Theorem hasScope_undefined (req : string) :
  hasScope None req = false.
Proof. reflexivity. Qed.

End ScopeFacts.

(** ** The key generator *)

Section KeyGenFacts.
Import KeyGen.

(** Induction over a buffer three bytes at a time, as the encoder reads it. *)
Lemma buffer_ind3 {A : Type} (P : list A -> Prop) :
  P [] ->
  (forall a, P [a]) ->
  (forall a b, P [a; b]) ->
  (forall a b c rest, P rest -> P (a :: b :: c :: rest)) ->
  forall buf, P buf.
Proof.
  intros H0 H1 H2 H3 buf.
  enough (Hall : P buf /\ (forall a, P (a :: buf)) /\
                 (forall a b, P (a :: b :: buf))) by apply Hall.
  induction buf as [| x rest [IH0 [IH1 IH2]]].
  - repeat split; auto.
  - repeat split; auto.
Qed.

(** Four characters for every three bytes, rounded up, no padding. *)
Lemma base64url_length (buf : list byte) :
  String.length (base64url buf) = (4 * List.length buf + 2) / 3.
Proof.
  induction buf as [| a | a b | a b c rest IH] using buffer_ind3;
    try reflexivity.
  cbn [base64url String.length List.length]. rewrite IH.
  replace (4 * S (S (S (List.length rest))) + 2)
    with ((4 * List.length rest + 2) + 4 * 3) by lia.
  rewrite Nat.div_add by discriminate. lia.
Qed.

Lemma substring_prefix (n : nat) (s : string) :
  n <= String.length s ->
  String.length (substring 0 n s) = n /\
  exists rest, s = substring 0 n s ++ rest.
Proof.
  revert s. induction n as [| n IH]; intros s Hlen.
  - split; [now destruct s | exists s; now destruct s].
  - destruct s as [| c s]; [simpl in Hlen; lia |].
    simpl in Hlen. destruct (IH s) as [Hl [rest Hrest]]; [lia |].
    split; [simpl; now rewrite Hl |].
    exists rest. simpl. now rewrite <- Hrest.
Qed.

Lemma generateAPIKey_key_length (bytes : list byte) :
  List.length bytes = 32 ->
  String.length (fst (generateAPIKey bytes)) = 46.
Proof.
  intros Hlen. cbn [generateAPIKey fst tag append String.length].
  rewrite base64url_length, Hlen. reflexivity.
Qed.

(** C8. For a secret generated from 32 random bytes, the public prefix
    has the fixed length 12, is a leading substring of the secret, and
    is the tag ["mc_"] followed by a fragment of 9 characters of the
    encoding; it is the prefix derivation applied to the secret, so
    every generation that yields the same secret yields the same
    prefix. *)
Theorem generateAPIKey_prefix (bytes : list byte) :
  List.length bytes = 32 ->
  let key := fst (generateAPIKey bytes) in
  let prefix := snd (generateAPIKey bytes) in
  String.length prefix = 12 /\
  leadingSubstring prefix key /\
  (exists fragment, prefix = tag ++ fragment /\ String.length fragment = 9 /\
                    leadingSubstring fragment (base64url bytes)) /\
  prefix = prefixOf key /\
  (forall bytes', fst (generateAPIKey bytes') = key ->
                  snd (generateAPIKey bytes') = prefix).
Proof.
  intros Hlen key prefix.
  assert (Hkey : String.length key = 46) by now apply generateAPIKey_key_length.
  assert (Henc : 9 <= String.length (base64url bytes))
    by (rewrite base64url_length, Hlen; cbn; lia).
  destruct (substring_prefix 12 key) as [Hl Hrest]; [lia |].
  destruct (substring_prefix 9 (base64url bytes) Henc) as [Hfl Hfrest].
  split; [exact Hl |]. split; [exact Hrest |]. split; [| split].
  - exists (substring 0 9 (base64url bytes)).
    split; [reflexivity |]. split; [exact Hfl | exact Hfrest].
  - reflexivity.
  - intros bytes' Hsame. unfold prefix.
    change (snd (generateAPIKey bytes'))
      with (prefixOf (fst (generateAPIKey bytes'))).
    now rewrite Hsame.
Qed.

Lemma generateAPIKey_prefix_witness :
  List.length (repeat x00%byte 32) = 32 /\
  String.length (snd (generateAPIKey (repeat x00%byte 32))) = 12.
Proof.
  split; [reflexivity |].
  apply (generateAPIKey_prefix (repeat x00%byte 32)). reflexivity.
Defined.

End KeyGenFacts.

(** ** The key service: what each operation returns and writes *)

Section ServiceFacts.
Import Schema Engine.
Context `{Platform}.

Lemma verify_unfold (secret : string) (now : Timestamp) (st : Store) :
  verify secret now st =
  match matchCandidate st secret with
  | None => (inl InvalidKey, st)
  | Some k =>
      if negb (isNull (revokedAt k)) then (inl RevokedKey, st)
      else if isExpired now k then (inl ExpiredKey, st)
      else (inr k,
            mkStore
              (map (fun r => if String.eqb (id r) (id k)
                             then setLastUsed now r else r) (keys st))
              (auditLog st ++ [eventOf st (id k) ev_used None [] now])%list
              (buckets st))
  end.
Proof.
  unfold verify, bind, getStore. destruct (matchCandidate st secret) as [k |];
    [| reflexivity].
  destruct (negb (isNull (revokedAt k))); [reflexivity |].
  destruct (isExpired now k); reflexivity.
Qed.

Lemma revoke_unfold (actor keyId : string) (reason : option string)
                    (now : Timestamp) (st : Store) :
  revoke actor keyId reason now st =
  match findById st keyId with
  | None => (inl KeyNotFound, st)
  | Some k =>
      if negb (isNull (revokedAt k)) then (inl AlreadyRevoked, st)
      else (inr tt,
            mkStore
              (map (fun r => if String.eqb (id r) keyId && isNull (revokedAt r)
                             then setRevocation actor reason now r else r)
                   (keys st))
              (auditLog st ++
                 [eventOf st keyId ev_revoked (Some actor)
                    (match reason with Some r => [("reason", r)] | None => [] end)
                    now])%list
              (buckets st))
  end.
Proof.
  unfold revoke, bind, getStore. destruct (findById st keyId) as [k |];
    [| reflexivity].
  destruct (negb (isNull (revokedAt k))); reflexivity.
Qed.

Lemma update_unfold (actor keyId : string) (p : Patch)
                    (now : Timestamp) (st : Store) :
  update actor keyId p now st =
  match findById st keyId with
  | None => (inl KeyNotFound, st)
  | Some k =>
      if match patchScopes p with
         | Some wanted => subsetOf wanted (scopes k)
         | None => true
         end
      then (inr (applyPatch p now k),
            mkStore
              (map (fun r => if String.eqb (id r) keyId
                             then applyPatch p now r else r) (keys st))
              (auditLog st) (buckets st))
      else (inl ScopeExpansionRejected, st)
  end.
Proof.
  unfold update, bind, getStore. destruct (findById st keyId) as [k |];
    [| reflexivity].
  destruct (patchScopes p) as [wanted |]; [| reflexivity].
  destruct (subsetOf wanted (scopes k)); reflexivity.
Qed.

(** The limiter touches neither the table nor the log. *)
Lemma checkAndConsume_frame (capacity interval : Z) (bucketKey : string)
                            (cost : Z) (now : Timestamp) (st : Store) :
  keys (snd (checkAndConsume capacity interval bucketKey cost now st)) = keys st /\
  auditLog (snd (checkAndConsume capacity interval bucketKey cost now st)) = auditLog st.
Proof.
  unfold checkAndConsume, bind, getStore.
  match goal with
  | |- context [if ?c then _ else _] => destruct c
  end; split; reflexivity.
Qed.

Lemma create_unfold (req : CreateRequest) (newId : string)
                    (entropy : option (list byte)) (now : Timestamp)
                    (st : Store) :
  create req newId entropy now st =
  if negb (authorizedOn (reqActor req) (reqSubject req))
  then (inl Forbidden, st)
  else
    match checkAndConsume creationCapacity creationInterval
            ("create:" ++ reqSubject req) 1 now st with
    | (inl e, st1) => (inl e, st1)
    | (inr _, st1) =>
        match entropy with
        | None => (inl EntropyUnavailable, st1)
        | Some bytes =>
            if existsb (fun r => String.eqb (id r) newId) (keys st1)
            then (inl DuplicateId, st1)
            else (inr (rowOf req newId bytes now,
                       fst (KeyGen.generateAPIKey bytes)),
                  mkStore
                    (keys st1 ++ [rowOf req newId bytes now])%list
                    (auditLog st1 ++
                       [eventOf st1 newId ev_created (Some (reqActor req)) [] now])%list
                    (buckets st1))
        end
    end.
Proof.
  unfold create.
  destruct (negb (authorizedOn (reqActor req) (reqSubject req)));
    [reflexivity |].
  unfold bind at 1.
  destruct (checkAndConsume creationCapacity creationInterval
              ("create:" ++ reqSubject req) 1 now st) as [[e | u] st1];
    [reflexivity |].
  destruct entropy as [bytes |]; [| reflexivity].
  cbv [KeyGen.generateAPIKey bind insert getStore fail setKeys record ret].
  cbn [id].
  destruct (existsb (fun r => String.eqb (id r) newId) (keys st1));
    reflexivity.
Qed.

End ServiceFacts.

(** ** Derived status and the listing filters *)

Section StatusFacts.
Import Schema Engine.

Lemma isNull_true {A : Type} (x : option A) : isNull x = true <-> x = None.
Proof. destruct x; split; intro Hx; try reflexivity; discriminate. Qed.

Lemma isNull_false {A : Type} (x : option A) : isNull x = false <-> x <> None.
Proof.
  destruct x; split; intro Hx; try reflexivity; try discriminate.
  now elim Hx.
Qed.

Lemma active_iff (now : Timestamp) (k : APIKey) :
  idx_api_keys_active now k = true <->
  revokedAt k = None /\
  (expiresAt k = None \/ exists e, expiresAt k = Some e /\ (e > now)%Z).
Proof.
  unfold idx_api_keys_active.
  rewrite andb_true_iff, orb_true_iff, !isNull_true.
  destruct (expiresAt k) as [e |].
  - rewrite Z.ltb_lt. split.
    + intros [Hr [Hn | Hlt]]; [discriminate |].
      split; [assumption |]. right. exists e. split; [reflexivity | lia].
    + intros [Hr [Hn | [e' [He Hgt]]]]; [discriminate |].
      injection He as <-. split; [assumption |]. right. lia.
  - split; intros [Hr _]; (split; [assumption | now left]).
Qed.

Lemma selectByStatus_In (st : Store) (subj : string) (f : StatusFilter)
                        (now : Timestamp) (k : APIKey) :
  In k (selectByStatus st subj f now) <->
  In k (keys st) /\ subject k = subj /\ hasStatus f now k = true.
Proof.
  unfold selectByStatus. rewrite filter_In, andb_true_iff, String.eqb_eq.
  tauto.
Qed.

Lemma firstn_incl {A : Type} (n : nat) (l : list A) (x : A) :
  In x (firstn n l) -> In x l.
Proof.
  revert l. induction n as [| n IH]; intros [| y l] Hin; simpl in *;
    try contradiction.
  destruct Hin as [-> | Hin]; [now left | right; now apply IH].
Qed.

Lemma skipn_incl {A : Type} (n : nat) (l : list A) (x : A) :
  In x (skipn n l) -> In x l.
Proof.
  revert l. induction n as [| n IH]; intros [| y l] Hin; simpl in *;
    try contradiction; try assumption.
  right. now apply IH.
Qed.

Lemma paginate_In {A : Type} (limit offset : nat) (l : list A) (x : A) :
  In x (paginate limit offset l) -> In x l.
Proof.
  unfold paginate. intros Hin.
  apply firstn_incl in Hin. now apply skipn_incl in Hin.
Qed.

Lemma skipn_nth_error {A : Type} (l : list A) (n : nat) (x : A) :
  nth_error l n = Some x -> exists tl, skipn n l = x :: tl.
Proof.
  revert l. induction n as [| n IH]; intros [| y l] Hn; try discriminate.
  - injection Hn as ->. now exists l.
  - simpl in *. now apply IH.
Qed.

(** Every row of a listing is on one of its pages. *)
Lemma paginate_reaches {A : Type} (limit : nat) (l : list A) (x : A) :
  0 < limit -> In x l -> exists offset, In x (paginate limit offset l).
Proof.
  intros Hpos Hin. apply In_nth_error in Hin as [n Hn].
  exists n. unfold paginate.
  destruct (skipn_nth_error l n x Hn) as [tl ->].
  destruct limit as [| limit]; [lia |]. now left.
Qed.

(** C5. A key is active exactly when [revokedAt] is absent and
    [expiresAt] is absent or later than the time of the read; the status
    a listing filters on is a function of these two timestamps and of
    that time, so an unrevoked key with an expiry is active before it
    and not from it on; and a revoked key of a subject is in the
    [revoked] listing, on one of its pages, and in no [active] listing
    nor on any of its pages. *)
Theorem status_derived_from_timestamps :
  (forall (now : Timestamp) (k : APIKey),
      hasStatus active now k = true <->
      revokedAt k = None /\
      (expiresAt k = None \/ exists e, expiresAt k = Some e /\ (e > now)%Z)) /\
  (forall (f : StatusFilter) (now : Timestamp) (k k' : APIKey),
      revokedAt k = revokedAt k' -> expiresAt k = expiresAt k' ->
      hasStatus f now k = hasStatus f now k') /\
  (forall (k : APIKey) (e now : Timestamp),
      revokedAt k = None -> expiresAt k = Some e ->
      hasStatus active now k = (now <? e)%Z) /\
  (forall (st : Store) (subj : string) (now : Timestamp) (k : APIKey),
      In k (keys st) -> subject k = subj -> revokedAt k <> None ->
      In k (selectByStatus st subj revoked now) /\
      (forall limit, 0 < effectiveLimit limit ->
         exists offset,
           In k (data (listKeys st subj revoked limit (Some offset) now))) /\
      ~ In k (selectByStatus st subj active now) /\
      (forall limit offset,
         ~ In k (data (listKeys st subj active limit offset now)))).
Proof.
  split; [exact active_iff |]. split; [| split].
  - intros f now k k' Hr He.
    destruct f; cbn [hasStatus]; unfold idx_api_keys_active, isExpired;
      now rewrite ?Hr, ?He.
  - intros k e now Hr He. cbn [hasStatus]. unfold idx_api_keys_active.
    now rewrite Hr, He.
  - intros st subj now k Hin Hsubj Hrev.
    assert (Hsel : In k (selectByStatus st subj revoked now)).
    { apply selectByStatus_In. repeat split; try assumption.
      cbn [hasStatus]. apply negb_true_iff. now apply isNull_false. }
    assert (Hnot : ~ In k (selectByStatus st subj active now)).
    { rewrite selectByStatus_In. intros [_ [_ Hact]].
      cbn [hasStatus] in Hact. apply active_iff in Hact as [Hnone _].
      now apply Hrev. }
    split; [exact Hsel |]. split; [| split; [exact Hnot |]].
    + intros limit Hpos. cbn [listKeys data orElse].
      now apply paginate_reaches.
    + intros limit offset Hpage. apply Hnot.
      cbn [listKeys data] in Hpage. now apply paginate_In in Hpage.
Qed.

Lemma status_derived_from_timestamps_witness :
  let k := mkAPIKey "key_1" "org_xyz" organization "CI/CD Pipeline" None
             "mc_AAAAAAAAA" "mc_AAAAAAAAAAAAA" ["projects:read"] None
             "user_abc123" None None (Some 2000%Z) (Some "user_abc123")
             (Some "rotated") 1000%Z 2000%Z in
  In k (keys Fixture.afterRevoke) /\
  In k (selectByStatus Fixture.afterRevoke "org_xyz" revoked 5000%Z) /\
  ~ In k (selectByStatus Fixture.afterRevoke "org_xyz" active 5000%Z).
Proof.
  intros k.
  assert (Hin : In k (keys Fixture.afterRevoke)) by (left; reflexivity).
  split; [exact Hin |].
  destruct (proj2 (proj2 (proj2 status_derived_from_timestamps))
              Fixture.afterRevoke "org_xyz" 5000%Z k Hin eq_refl)
    as [Hsel [_ [Hnot _]]]; [discriminate |].
  split; [exact Hsel | exact Hnot].
Defined.

End StatusFacts.

(** ** The request middleware *)

Section MiddlewareFacts.
Import Schema Engine UnkeyPlan.
Context `{Platform} `{IdentityProvider}.

(** C9. A request without API-key header that comes with a valid
    interactive session gets, from [withAuth], the session's user and
    organization with the scope set [["*"]] and the store untouched; so
    [hasScope] succeeds on the attached scopes for every required scope,
    and no protected route answers it with "Insufficient scope". *)
Theorem withAuth_session_wildcard (request : Request) (sess : ClerkAuth)
                                  (now : Timestamp) (st : Store) :
  xApiKey request = None ->
  truthy (userId sess) = true ->
  withAuth request sess now st =
    (inr (mkAuthContext (userId sess) (orgId sess) (Some ["*"]) session), st) /\
  (forall ctx, fst (withAuth request sess now st) = inr ctx ->
     ctxScopes ctx = Some ["*"] /\
     authMethod ctx = session /\
     forall required, Scopes.hasScope (ctxScopes ctx) required = true) /\
  (forall required,
     protectedRoute required request sess now st =
     (inr (match orgId sess with Some o => Some o | None => userId sess end), st)).
Proof.
  intros Hkey Huser.
  assert (Hwith : withAuth request sess now st =
            (inr (mkAuthContext (userId sess) (orgId sess) (Some ["*"]) session), st)).
  { unfold withAuth. now rewrite Hkey, Huser. }
  assert (Hall : forall required, Scopes.hasScope (Some ["*"]) required = true).
  { intros required. apply hasScope_grants. left. now left. }
  split; [exact Hwith |]. split.
  - intros ctx Hctx. rewrite Hwith in Hctx. cbn [fst] in Hctx.
    injection Hctx as <-. cbn [ctxScopes authMethod]. auto.
  - intros required. unfold protectedRoute. rewrite Hwith.
    cbn [ctxScopes ctxOrgId ctxUserId]. now rewrite Hall.
Qed.

End MiddlewareFacts.

Lemma withAuth_session_wildcard_witness :
  UnkeyPlan.xApiKey (UnkeyPlan.mkRequest None None) = None /\
  UnkeyPlan.truthy (UnkeyPlan.userId Fixture.interactive) = true /\
  @UnkeyPlan.protectedRoute Fixture.platform Fixture.clerk "exports:write"
    (UnkeyPlan.mkRequest None None) Fixture.interactive 3000%Z Fixture.created =
  (inr (Some "org_xyz"), Fixture.created).
Proof.
  split; [reflexivity |]. split; [reflexivity |].
  apply (@withAuth_session_wildcard Fixture.platform Fixture.clerk
           (UnkeyPlan.mkRequest None None) Fixture.interactive 3000%Z
           Fixture.created eq_refl eq_refl).
Defined.

(** ** Histories: what every operation keeps *)

Section HistoryFacts.
Import Schema Engine.
Context `{Platform}.

Lemma subsetOf_incl (wanted current : list string) :
  subsetOf wanted current = true <-> incl wanted current.
Proof.
  unfold subsetOf, incl. rewrite forallb_forall. split.
  - intros Hall s Hs. apply Hall in Hs. now apply includes_In in Hs.
  - intros Hall s Hs. apply includes_In. now apply Hall.
Qed.

Lemma evolves_refl (k : APIKey) : evolves k k.
Proof.
  unfold evolves. repeat split; try reflexivity; try assumption.
  apply incl_refl.
Qed.

Lemma evolves_trans (a b c : APIKey) :
  evolves a b -> evolves b c -> evolves a c.
Proof.
  unfold evolves.
  intros (Hi & Hs & Ht & Hp & Hh & Hc & Ha & He & Hsc & Hr)
         (Hi' & Hs' & Ht' & Hp' & Hh' & Hc' & Ha' & He' & Hsc' & Hr').
  repeat split; try congruence.
  - eapply incl_tran; eassumption.
  - destruct (Hr t) as (Hr1 & _); [assumption |].
    now destruct (Hr' t Hr1).
  - destruct (Hr t) as (Hr1 & Hr2 & _); [assumption |].
    destruct (Hr' t Hr1) as (_ & Hr2' & _). congruence.
  - destruct (Hr t) as (Hr1 & _ & Hr3); [assumption |].
    destruct (Hr' t Hr1) as (_ & _ & Hr3'). congruence.
Qed.

Lemma evolves_setLastUsed (ts : Timestamp) (k : APIKey) :
  evolves k (setLastUsed ts k).
Proof.
  unfold evolves. repeat split; try reflexivity; try assumption.
  apply incl_refl.
Qed.

Lemma evolves_setRevocation (actor : string) (reason : option string)
                            (ts : Timestamp) (k : APIKey) :
  revokedAt k = None -> evolves k (setRevocation actor reason ts k).
Proof.
  intros Hnone. unfold evolves.
  repeat split; try reflexivity; try congruence.
  apply incl_refl.
Qed.

Lemma evolves_applyPatch (p : Patch) (now : Timestamp) (k : APIKey) :
  match patchScopes p with
  | Some wanted => subsetOf wanted (scopes k)
  | None => true
  end = true ->
  evolves k (applyPatch p now k).
Proof.
  intros Hsub. unfold evolves.
  repeat split; try reflexivity; try assumption.
  cbn [applyPatch scopes]. destruct (patchScopes p) as [wanted |].
  - now apply subsetOf_incl.
  - apply incl_refl.
Qed.

Lemma findById_id (st : Store) (keyId : string) (k : APIKey) :
  findById st keyId = Some k -> In k (keys st) /\ id k = keyId.
Proof.
  unfold findById. intros Hfind. apply find_some in Hfind as [Hin Heq].
  split; [assumption | now apply String.eqb_eq].
Qed.

Lemma find_map_app (f : APIKey -> APIKey) (keyId : string)
                   (l added : list APIKey) (k : APIKey) :
  (forall r, id (f r) = id r) ->
  find (fun r => String.eqb (id r) keyId) l = Some k ->
  find (fun r => String.eqb (id r) keyId) (map f l ++ added)%list = Some (f k).
Proof.
  intros Hid. induction l as [| r l IH]; [discriminate |].
  cbn [find map app]. rewrite Hid.
  destruct (String.eqb (id r) keyId).
  - intros Hk. now injection Hk as ->.
  - exact IH.
Qed.

Ltac shape_goals :=
  unfold stepShape; split; [| split; [| split; [| split]]].

Lemma stepShape_same (st st' : Store) :
  keys st' = keys st -> stepShape st st' (fun r => r) [].
Proof.
  intros Hkeys. shape_goals.
  - now rewrite Hkeys, map_id, app_nil_r.
  - reflexivity.
  - auto.
  - intros a r [].
  - intros keyId k _. apply evolves_refl.
Qed.

Lemma exec_shape (op : Op) (st : Store) :
  exists f added, stepShape st (exec op st) f added.
Proof.
  destruct op as [req newId entropy now | actor keyId p now
                 | actor keyId reason now | secret now]; cbn [exec].
  - (* create *)
    rewrite create_unfold.
    destruct (negb (authorizedOn (reqActor req) (reqSubject req))).
    { exists (fun r => r), []. now apply stepShape_same. }
    pose proof (checkAndConsume_frame creationCapacity creationInterval
                  ("create:" ++ reqSubject req) 1 now st) as [Hk _].
    destruct (checkAndConsume creationCapacity creationInterval
                ("create:" ++ reqSubject req) 1 now st) as [[e | u] st1];
      cbn [snd] in Hk.
    { exists (fun r => r), []. now apply stepShape_same. }
    destruct entropy as [bytes |].
    2: { exists (fun r => r), []. now apply stepShape_same. }
    destruct (existsb (fun r => String.eqb (id r) newId) (keys st1)) eqn:Hdup.
    { exists (fun r => r), []. now apply stepShape_same. }
    exists (fun r => r), [rowOf req newId bytes now].
    shape_goals.
    + cbn [snd keys]. now rewrite Hk, map_id.
    + reflexivity.
    + auto.
    + intros a r [<- | []] Hin Heq. cbn [rowOf id] in Heq.
      rewrite Hk in Hdup.
      assert (Hex : existsb (fun r => String.eqb (id r) newId) (keys st) = true).
      { apply existsb_exists. exists r. split; [assumption |].
        apply String.eqb_eq. now symmetry. }
      congruence.
    + intros keyId k _. apply evolves_refl.
  - (* update *)
    rewrite update_unfold.
    destruct (findById st keyId) as [k |] eqn:Hfind.
    2: { exists (fun r => r), []. now apply stepShape_same. }
    destruct (match patchScopes p with
              | Some wanted => subsetOf wanted (scopes k)
              | None => true
              end) eqn:Hsub.
    2: { exists (fun r => r), []. now apply stepShape_same. }
    exists (fun r => if String.eqb (id r) keyId then applyPatch p now r else r), [].
    shape_goals.
    + cbn [snd keys]. now rewrite app_nil_r.
    + intros r. now destruct (String.eqb (id r) keyId).
    + intros r Hr. now destruct (String.eqb (id r) keyId).
    + intros a r [].
    + intros keyId' k' Hget.
      destruct (String.eqb (id k') keyId) eqn:Heq; [| apply evolves_refl].
      apply String.eqb_eq in Heq.
      apply findById_id in Hget as Hk'. destruct Hk' as [_ Hid'].
      unfold get in Hget. rewrite <- Hid', Heq, Hfind in Hget.
      injection Hget as <-. now apply evolves_applyPatch.
  - (* revoke *)
    rewrite revoke_unfold.
    destruct (findById st keyId) as [k |] eqn:Hfind.
    2: { exists (fun r => r), []. now apply stepShape_same. }
    destruct (negb (isNull (revokedAt k))).
    { exists (fun r => r), []. now apply stepShape_same. }
    exists (fun r => if String.eqb (id r) keyId && isNull (revokedAt r)
                     then setRevocation actor reason now r else r), [].
    shape_goals.
    + cbn [snd keys]. now rewrite app_nil_r.
    + intros r. now destruct (String.eqb (id r) keyId && isNull (revokedAt r)).
    + intros r Hr.
      destruct (String.eqb (id r) keyId && isNull (revokedAt r));
        [discriminate | assumption].
    + intros a r [].
    + intros keyId' k' _.
      destruct (String.eqb (id k') keyId && isNull (revokedAt k')) eqn:Hc;
        [| apply evolves_refl].
      apply andb_prop in Hc as [_ Hnull].
      apply evolves_setRevocation. now apply isNull_true.
  - (* verify *)
    rewrite verify_unfold.
    destruct (matchCandidate st secret) as [k |].
    2: { exists (fun r => r), []. now apply stepShape_same. }
    destruct (negb (isNull (revokedAt k))).
    { exists (fun r => r), []. now apply stepShape_same. }
    destruct (isExpired now k).
    { exists (fun r => r), []. now apply stepShape_same. }
    exists (fun r => if String.eqb (id r) (id k) then setLastUsed now r else r), [].
    shape_goals.
    + cbn [snd keys]. now rewrite app_nil_r.
    + intros r. now destruct (String.eqb (id r) (id k)).
    + intros r Hr. now destruct (String.eqb (id r) (id k)).
    + intros a r [].
    + intros keyId' k' _.
      destruct (String.eqb (id k') (id k));
        [apply evolves_setLastUsed | apply evolves_refl].
Qed.

(** One operation keeps what [get] finds, up to [evolves]. *)
Lemma exec_get (op : Op) (st : Store) (keyId : string) (k : APIKey) :
  get st keyId = Some k ->
  exists k', get (exec op st) keyId = Some k' /\ evolves k k'.
Proof.
  intros Hget.
  destruct (exec_shape op st) as (f & added & Hkeys & Hid & _ & _ & Hev).
  exists (f k). split; [| now apply (Hev keyId)].
  unfold get, findById. rewrite Hkeys. now apply find_map_app.
Qed.

Lemma run_get (ops : list Op) (st : Store) (keyId : string) (k : APIKey) :
  get st keyId = Some k ->
  exists k', get (run ops st) keyId = Some k' /\ evolves k k'.
Proof.
  revert st k. induction ops as [| op ops IH]; intros st k Hget.
  - exists k. split; [assumption | apply evolves_refl].
  - destruct (exec_get op st keyId k Hget) as (k1 & Hget1 & Hev1).
    destruct (IH (exec op st) k1 Hget1) as (k2 & Hget2 & Hev2).
    exists k2. split; [exact Hget2 | eapply evolves_trans; eassumption].
Qed.

(** One operation keeps an identifier revoked on every row that carries it. *)
Lemma exec_revokedEverywhere (op : Op) (st : Store) (keyId : string) :
  revokedEverywhere keyId st -> revokedEverywhere keyId (exec op st).
Proof.
  intros [[k0 [Hin0 Hid0]] Hall].
  destruct (exec_shape op st) as (f & added & Hkeys & Hid & Hrev & Hfresh & _).
  unfold revokedEverywhere. rewrite Hkeys. split.
  - exists (f k0). split; [| now rewrite Hid].
    apply in_or_app. left. now apply in_map.
  - intros k Hin Hk. apply in_app_or in Hin as [Hin | Hin].
    + apply in_map_iff in Hin as (r & <- & Hr).
      apply Hrev. apply Hall; [assumption |]. now rewrite <- Hid.
    + exfalso. apply (Hfresh k k0 Hin Hin0). congruence.
Qed.

Lemma run_revokedEverywhere (ops : list Op) (st : Store) (keyId : string) :
  revokedEverywhere keyId st -> revokedEverywhere keyId (run ops st).
Proof.
  revert st. induction ops as [| op ops IH]; intros st Hinv; [exact Hinv |].
  apply (IH (exec op st)). now apply exec_revokedEverywhere.
Qed.

(** One operation rewrites rows in place and appends rows, and leaves
    the identifier, the prefix and the hash of every row as they are. *)
Lemma exec_digest (op : Op) (st : Store) :
  exists f added,
    keys (exec op st) = (map f (keys st) ++ added)%list /\
    forall r, id (f r) = id r /\
              keyPrefix (f r) = keyPrefix r /\
              keyHash (f r) = keyHash r.
Proof.
  assert (Hsame : forall st', keys st' = keys st ->
            exists f added,
              keys st' = (map f (keys st) ++ added)%list /\
              forall r, id (f r) = id r /\
                        keyPrefix (f r) = keyPrefix r /\
                        keyHash (f r) = keyHash r).
  { intros st' Hkeys. exists (fun r => r), [].
    split; [now rewrite Hkeys, map_id, app_nil_r | now intros r]. }
  destruct op as [req newId entropy now | actor keyId p now
                 | actor keyId reason now | secret now]; cbn [exec].
  - rewrite create_unfold.
    destruct (negb (authorizedOn (reqActor req) (reqSubject req)));
      [now apply Hsame |].
    pose proof (checkAndConsume_frame creationCapacity creationInterval
                  ("create:" ++ reqSubject req) 1 now st) as [Hk _].
    destruct (checkAndConsume creationCapacity creationInterval
                ("create:" ++ reqSubject req) 1 now st) as [[e | u] st1];
      cbn [snd] in Hk; [now apply Hsame |].
    destruct entropy as [bytes |]; [| now apply Hsame].
    destruct (existsb (fun r => String.eqb (id r) newId) (keys st1));
      [now apply Hsame |].
    exists (fun r => r), [rowOf req newId bytes now].
    split; [cbn [snd keys]; now rewrite Hk, map_id | now intros r].
  - rewrite update_unfold.
    destruct (findById st keyId) as [k |]; [| now apply Hsame].
    destruct (match patchScopes p with
              | Some wanted => subsetOf wanted (scopes k)
              | None => true
              end); [| now apply Hsame].
    exists (fun r => if String.eqb (id r) keyId then applyPatch p now r else r), [].
    split; [cbn [snd keys]; now rewrite app_nil_r |].
    intros r. now destruct (String.eqb (id r) keyId).
  - rewrite revoke_unfold.
    destruct (findById st keyId) as [k |]; [| now apply Hsame].
    destruct (negb (isNull (revokedAt k))); [now apply Hsame |].
    exists (fun r => if String.eqb (id r) keyId && isNull (revokedAt r)
                     then setRevocation actor reason now r else r), [].
    split; [cbn [snd keys]; now rewrite app_nil_r |].
    intros r. now destruct (String.eqb (id r) keyId && isNull (revokedAt r)).
  - rewrite verify_unfold.
    destruct (matchCandidate st secret) as [k |]; [| now apply Hsame].
    destruct (negb (isNull (revokedAt k))); [now apply Hsame |].
    destruct (isExpired now k); [now apply Hsame |].
    exists (fun r => if String.eqb (id r) (id k) then setLastUsed now r else r), [].
    split; [cbn [snd keys]; now rewrite app_nil_r |].
    intros r. now destruct (String.eqb (id r) (id k)).
Qed.

Lemma find_filter_map_app (f : APIKey -> APIKey) (prefix digest : string)
                          (l added : list APIKey) (k : APIKey) :
  (forall r, id (f r) = id r /\
             keyPrefix (f r) = keyPrefix r /\
             keyHash (f r) = keyHash r) ->
  find (fun r => String.eqb (keyHash r) digest)
       (filter (fun r => String.eqb (keyPrefix r) prefix) l) = Some k ->
  find (fun r => String.eqb (keyHash r) digest)
       (filter (fun r => String.eqb (keyPrefix r) prefix)
               (map f l ++ added)%list) = Some (f k).
Proof.
  intros Hf. induction l as [| r l IH]; [discriminate |].
  destruct (Hf r) as (_ & Hp & Hh).
  cbn [map app filter]. rewrite Hp.
  destruct (String.eqb (keyPrefix r) prefix); [| exact IH].
  cbn [find]. rewrite Hh.
  destruct (String.eqb (keyHash r) digest); [| exact IH].
  intros Hk. now injection Hk as ->.
Qed.

(** A secret that resolves to a key keeps resolving to the key with that
    identifier, whatever operations follow. *)
Lemma exec_matchCandidate (op : Op) (st : Store) (secret : string) (k : APIKey) :
  matchCandidate st secret = Some k ->
  exists k', matchCandidate (exec op st) secret = Some k' /\ id k' = id k.
Proof.
  destruct (exec_digest op st) as (f & added & Hkeys & Hf).
  unfold matchCandidate, findByPrefix. rewrite Hkeys.
  intros Hfind. exists (f k). split; [| apply Hf].
  now apply find_filter_map_app.
Qed.

Lemma run_matchCandidate (ops : list Op) (st : Store) (secret : string)
                         (k : APIKey) :
  matchCandidate st secret = Some k ->
  exists k', matchCandidate (run ops st) secret = Some k' /\ id k' = id k.
Proof.
  revert st k. induction ops as [| op ops IH]; intros st k Hm.
  - now exists k.
  - destruct (exec_matchCandidate op st secret k Hm) as (k1 & Hm1 & Hid1).
    destruct (IH (exec op st) k1 Hm1) as (k2 & Hm2 & Hid2).
    exists k2. split; [exact Hm2 | congruence].
Qed.

End HistoryFacts.

(** ** Revocation *)

Section RevocationFacts.
Import Schema Engine.
Import UnkeyPlan (ClerkAuth, userId, orgId, truthy, Thrown).
Context `{Platform}.

(** The store a successful revocation leaves. *)
Lemma revoke_success (actor keyId : string) (reason : option string)
                     (now : Timestamp) (st : Store) (k : APIKey) :
  get st keyId = Some k ->
  revokedAt k = None ->
  revoke actor keyId reason now st =
  (inr tt,
   mkStore
     (map (fun r => if String.eqb (id r) keyId && isNull (revokedAt r)
                    then setRevocation actor reason now r else r) (keys st))
     (auditLog st ++
        [eventOf st keyId ev_revoked (Some actor)
           (match reason with Some r => [("reason", r)] | None => [] end) now])%list
     (buckets st)).
Proof.
  intros Hget Hnone. rewrite revoke_unfold.
  unfold get in Hget. now rewrite Hget, Hnone.
Qed.

(** After a successful revocation every row with the identifier is revoked. *)
Lemma revoke_revokedEverywhere (actor keyId : string) (reason : option string)
                               (now : Timestamp) (st st' : Store) :
  revoke actor keyId reason now st = (inr tt, st') ->
  revokedEverywhere keyId st'.
Proof.
  rewrite revoke_unfold.
  destruct (findById st keyId) as [k |] eqn:Hfind; [| discriminate].
  destruct (negb (isNull (revokedAt k))); [discriminate |].
  intros Hst. injection Hst as <-.
  apply findById_id in Hfind as [Hin Hid].
  set (f := fun r => if String.eqb (id r) keyId && isNull (revokedAt r)
                     then setRevocation actor reason now r else r).
  assert (Hfid : forall r, id (f r) = id r).
  { intros r. unfold f.
    now destruct (String.eqb (id r) keyId && isNull (revokedAt r)). }
  split; cbn [keys].
  - exists (f k). split; [now apply in_map | now rewrite Hfid].
  - intros r' Hin' Hid'. apply in_map_iff in Hin' as (r & <- & Hr).
    rewrite Hfid in Hid'. unfold f. rewrite Hid', String.eqb_refl.
    destruct (isNull (revokedAt r)) eqn:Hnull; cbn [andb].
    + discriminate.
    + now apply isNull_false.
Qed.

(** C6. For a key the store holds: revoking it when [revokedAt] is set
    fails with [AlreadyRevoked] and leaves the store as it was; revoking
    it otherwise succeeds, sets [revokedAt], [revokedBy] and
    [revocationReason] on the record, changes nothing else of it but
    [updatedAt], and appends one [revoked] event to the audit log; and a
    [revokedAt] that is set stays the same, with its actor and reason,
    through every later sequence of operations. The server actions
    [revokeApiKey] of both plans, called by the owner of an already
    revoked key, throw the service's [AlreadyRevoked] and leave the store
    as it was. *)
Theorem revoke_once (actor keyId : string) (reason : option string)
                    (now : Timestamp) (st : Store) (k : APIKey) :
  get st keyId = Some k ->
  (revokedAt k <> None ->
   revoke actor keyId reason now st = (inl AlreadyRevoked, st)) /\
  (revokedAt k = None ->
   exists st' k',
     revoke actor keyId reason now st = (inr tt, st') /\
     get st' keyId = Some k' /\
     revokedAt k' = Some now /\
     revokedBy k' = Some actor /\
     revocationReason k' = reason /\
     evolves k k' /\
     exists event,
       auditLog st' = (auditLog st ++ [event])%list /\
       event_type event = ev_revoked /\
       api_key_id event = keyId /\
       actor_id event = Some actor) /\
  (forall t, revokedAt k = Some t ->
   forall ops, exists k',
     get (run ops st) keyId = Some k' /\
     revokedAt k' = Some t /\
     revokedBy k' = revokedBy k /\
     revocationReason k' = revocationReason k) /\
  (revokedAt k <> None ->
   forall sess,
     (truthy (userId sess) = true ->
      subject k = orElse (orgId sess) (orElse (userId sess) "") ->
      UnkeyPlan.revokeApiKey sess keyId now st = (Thrown "AlreadyRevoked", st)) /\
     (truthy (userId sess) = true -> truthy (orgId sess) = true ->
      subject k = orElse (orgId sess) "" ->
      ClerkPlan.revokeApiKey sess keyId reason now st =
        (Thrown "AlreadyRevoked", st))).
Proof.
  intros Hget.
  assert (Halready : revokedAt k <> None ->
            forall who why, revoke who keyId why now st = (inl AlreadyRevoked, st)).
  { intros Hset who why. rewrite revoke_unfold. unfold get in Hget.
    rewrite Hget. apply isNull_false in Hset. now rewrite Hset. }
  split; [| split; [| split]].
  4: { intros Hset sess. split.
       - intros Huser Howner. unfold UnkeyPlan.revokeApiKey.
         rewrite Huser, Hget, Howner, String.eqb_refl. cbn [negb].
         now rewrite Halready.
       - intros Huser Horg Howner. unfold ClerkPlan.revokeApiKey.
         rewrite Huser, Horg, Hget, Howner, String.eqb_refl. cbn [negb orb].
         now rewrite Halready. }
  - intros Hset. rewrite revoke_unfold. unfold get in Hget. rewrite Hget.
    apply isNull_false in Hset. now rewrite Hset.
  - intros Hnone. rewrite (revoke_success actor keyId reason now st k Hget Hnone).
    eexists. exists (setRevocation actor reason now k).
    split; [reflexivity |].
    split; [| repeat (split; [reflexivity |])].
    + unfold get, findById. cbn [keys]. rewrite <- (app_nil_r (map _ _)).
      rewrite (find_map_app
                 (fun r => if String.eqb (id r) keyId && isNull (revokedAt r)
                           then setRevocation actor reason now r else r)
                 keyId (keys st) [] k).
      * apply findById_id in Hget as [_ Hid].
        now rewrite Hid, String.eqb_refl, Hnone.
      * intros r. now destruct (String.eqb (id r) keyId && isNull (revokedAt r)).
      * exact Hget.
    + split; [now apply evolves_setRevocation |].
      eexists. cbn [auditLog]. split; [reflexivity |]. now cbn.
  - intros t Ht ops.
    destruct (run_get ops st keyId k Hget) as (k' & Hget' & Hev).
    exists k'. split; [exact Hget' |].
    destruct Hev as (_ & _ & _ & _ & _ & _ & _ & _ & _ & Hrev).
    exact (Hrev t Ht).
Qed.

End RevocationFacts.

Lemma revoke_once_witness :
  Engine.get Fixture.afterRevoke "key_1" <> None /\
  Engine.revoke "user_abc123" "key_1" (Some "again") 3000%Z
    Fixture.afterRevoke = (inl Engine.AlreadyRevoked, Fixture.afterRevoke).
Proof.
  split; [discriminate |].
  refine (proj1 (@revoke_once Fixture.platform "user_abc123" "key_1"
                   (Some "again") 3000%Z Fixture.afterRevoke _ eq_refl) _).
  discriminate.
Defined.

(** ** Update *)

Section UpdateFacts.
Import Schema Engine.
Context `{Platform}.

Lemma find_app_fresh (keyId : string) (l : list APIKey) (row : APIKey) :
  existsb (fun r => String.eqb (id r) keyId) l = false ->
  id row = keyId ->
  find (fun r => String.eqb (id r) keyId) (l ++ [row])%list = Some row.
Proof.
  intros Hfresh Hid. induction l as [| r l IH]; cbn [app find].
  - now rewrite Hid, String.eqb_refl.
  - cbn [existsb] in Hfresh. apply orb_false_iff in Hfresh as [Hr Hl].
    rewrite Hr. now apply IH.
Qed.

(** A creation that succeeds returns the row it stored under the new
    identifier, with the requested scopes, and the generated secret. *)
Lemma create_success (req : CreateRequest) (newId : string)
                     (entropy : option (list byte)) (now : Timestamp)
                     (st st' : Store) (row : APIKey) (secret : string) :
  create req newId entropy now st = (inr (row, secret), st') ->
  exists bytes,
    entropy = Some bytes /\
    row = rowOf req newId bytes now /\
    secret = fst (KeyGen.generateAPIKey bytes) /\
    get st' newId = Some row.
Proof.
  rewrite create_unfold.
  destruct (negb (authorizedOn (reqActor req) (reqSubject req)));
    [discriminate |].
  destruct (checkAndConsume creationCapacity creationInterval
              ("create:" ++ reqSubject req) 1 now st) as [[e | u] st1];
    [discriminate |].
  destruct entropy as [bytes |]; [| discriminate].
  destruct (existsb (fun r => String.eqb (id r) newId) (keys st1)) eqn:Hdup;
    [discriminate |].
  intros Hres. injection Hres as <- <- <-.
  exists bytes. repeat split.
  unfold get, findById. cbn [keys]. now apply find_app_fresh.
Qed.

(** What an update leaves of the table. *)
Lemma update_success (actor keyId : string) (p : Patch) (now : Timestamp)
                     (st : Store) (k : APIKey) :
  get st keyId = Some k ->
  match patchScopes p with
  | Some wanted => subsetOf wanted (scopes k)
  | None => true
  end = true ->
  update actor keyId p now st =
  (inr (applyPatch p now k),
   mkStore (map (fun r => if String.eqb (id r) keyId
                          then applyPatch p now r else r) (keys st))
           (auditLog st) (buckets st)) /\
  get (snd (update actor keyId p now st)) keyId = Some (applyPatch p now k).
Proof.
  intros Hget Hsub. rewrite update_unfold.
  unfold get in Hget. rewrite Hget, Hsub. split; [reflexivity |].
  unfold get, findById. cbn [snd keys]. rewrite <- (app_nil_r (map _ _)).
  rewrite (find_map_app
             (fun r => if String.eqb (id r) keyId then applyPatch p now r else r)
             keyId (keys st) [] k).
  - apply findById_id in Hget as [_ Hid]. now rewrite Hid, String.eqb_refl.
  - intros r. now destruct (String.eqb (id r) keyId).
  - exact Hget.
Qed.

(** C7. For a key the store holds and every patch: the update fails with
    [ScopeExpansionRejected], leaving the store as it was, whenever the
    patch carries scopes that are not all among the key's current scopes;
    in every other case it succeeds, and the record it returns and stores
    is the old one with the name, description, claims and scopes of the
    patch and a new [updatedAt], everything else kept and the scopes a
    subset of the old ones; through every later sequence of operations
    the key's scopes stay among those it has now. A key created with
    ["projects:read"] rejects a patch to ["projects:read", "exports:write"]
    and accepts the patch to no scopes. *)
Theorem update_narrowing_only (actor keyId : string) (p : Patch)
                              (now : Timestamp) (st : Store) (k : APIKey) :
  get st keyId = Some k ->
  (forall wanted, patchScopes p = Some wanted -> ~ incl wanted (scopes k) ->
     update actor keyId p now st = (inl ScopeExpansionRejected, st)) /\
  ((forall wanted, patchScopes p = Some wanted -> incl wanted (scopes k)) ->
     exists st',
       update actor keyId p now st = (inr (applyPatch p now k), st') /\
       get st' keyId = Some (applyPatch p now k) /\
       auditLog st' = auditLog st /\
       scopes (applyPatch p now k) = orElse (patchScopes p) (scopes k) /\
       lastUsedAt (applyPatch p now k) = lastUsedAt k /\
       evolves k (applyPatch p now k)) /\
  (forall ops, exists k',
     get (run ops st) keyId = Some k' /\ incl (scopes k') (scopes k)) /\
  (forall (req : CreateRequest) (newId : string) (entropy : option (list byte))
          (t0 : Timestamp) (st0 st1 : Store) (row : APIKey) (secret : string),
     reqScopes req = ["projects:read"] ->
     create req newId entropy t0 st0 = (inr (row, secret), st1) ->
     update actor newId
       (mkPatch None None None (Some ["projects:read"; "exports:write"])) now st1 =
       (inl ScopeExpansionRejected, st1) /\
     exists row' st2,
       update actor newId (mkPatch None None None (Some [])) now st1 =
         (inr row', st2) /\
       scopes row' = [] /\ get st2 newId = Some row').
Proof.
  intros Hget. split; [| split; [| split]].
  - intros wanted Hp Hnot. rewrite update_unfold.
    unfold get in Hget. rewrite Hget, Hp.
    destruct (subsetOf wanted (scopes k)) eqn:Hsub; [| reflexivity].
    apply subsetOf_incl in Hsub. contradiction.
  - intros Hall.
    assert (Hsub : match patchScopes p with
                   | Some wanted => subsetOf wanted (scopes k)
                   | None => true
                   end = true).
    { destruct (patchScopes p) as [wanted |]; [| reflexivity].
      apply subsetOf_incl. now apply Hall. }
    destruct (update_success actor keyId p now st k Hget Hsub) as [Hupd Hget'].
    eexists. split; [exact Hupd |].
    rewrite Hupd in Hget'. cbn [snd] in Hget'.
    split; [exact Hget' |]. split; [reflexivity |].
    split; [reflexivity |]. split; [reflexivity |].
    now apply evolves_applyPatch.
  - intros ops. destruct (run_get ops st keyId k Hget) as (k' & Hget' & Hev).
    exists k'. split; [exact Hget' |].
    now destruct Hev as (_ & _ & _ & _ & _ & _ & _ & _ & Hsc & _).
  - intros req newId entropy t0 st0 st1 row secret Hscopes Hcreate.
    apply create_success in Hcreate as (bytes & _ & Hrow & _ & Hget1).
    assert (Hrs : scopes row = ["projects:read"])
      by (rewrite Hrow; cbn [rowOf scopes]; exact Hscopes).
    split.
    + rewrite update_unfold. unfold get in Hget1. rewrite Hget1.
      cbn [patchScopes]. now rewrite Hrs.
    + destruct (update_success actor newId (mkPatch None None None (Some []))
                  now st1 row Hget1 eq_refl) as [Hupd Hget'].
      eexists. eexists. split; [exact Hupd |].
      rewrite Hupd in Hget'. cbn [snd] in Hget'.
      split; [reflexivity | exact Hget'].
Qed.

End UpdateFacts.

Lemma update_narrowing_only_witness :
  Engine.get Fixture.created "key_1" <> None /\
  Engine.update "user_abc123" "key_1"
    (Engine.mkPatch None None None (Some ["projects:read"; "exports:write"]))
    3000%Z Fixture.created =
  (inl Engine.ScopeExpansionRejected, Fixture.created).
Proof.
  split; [discriminate |].
  refine (proj1 (@update_narrowing_only Fixture.platform "user_abc123" "key_1"
                   (Engine.mkPatch None None None
                      (Some ["projects:read"; "exports:write"]))
                   3000%Z Fixture.created _ eq_refl) _ eq_refl _).
  intros Hincl.
  destruct (Hincl "exports:write" (or_intror (or_introl eq_refl)))
    as [Heq | []].
  discriminate Heq.
Defined.

(** ** Verification *)

Section VerificationFacts.
Import Schema Engine UnkeyPlan.
Context `{Platform} `{IdentityProvider}.

Lemma matchCandidate_In (st : Store) (secret : string) (k : APIKey) :
  matchCandidate st secret = Some k ->
  In k (keys st) /\
  keyPrefix k = KeyGen.prefixOf secret /\
  keyHash k = hashSecret secret.
Proof.
  unfold matchCandidate, findByPrefix. intros Hfind.
  apply find_some in Hfind as [Hin Hhash].
  apply filter_In in Hin as [Hin Hprefix].
  repeat split; [assumption | |]; now apply String.eqb_eq.
Qed.

(** The verifier's answer in each failing case; the store is not written. *)
Lemma verify_failure (secret : string) (now : Timestamp) (st : Store) :
  (matchCandidate st secret = None ->
   verify secret now st = (inl InvalidKey, st)) /\
  (forall k, matchCandidate st secret = Some k -> revokedAt k <> None ->
   verify secret now st = (inl RevokedKey, st)) /\
  (forall k e, matchCandidate st secret = Some k -> revokedAt k = None ->
               expiresAt k = Some e -> (e <= now)%Z ->
   verify secret now st = (inl ExpiredKey, st)).
Proof.
  rewrite verify_unfold. split; [| split].
  - now intros ->.
  - intros k -> Hrev. apply isNull_false in Hrev. now rewrite Hrev.
  - intros k e -> Hrev He Hle. unfold isExpired. rewrite Hrev, He. cbn.
    apply Z.leb_le in Hle. now rewrite Hle.
Qed.

(** Whatever the verifier's failure, the middleware answers the same. *)
Lemma authenticateApiKey_failure (secret : string) (now : Timestamp)
                                 (st st' : Store) (e : Error) :
  verify secret now st = (inl e, st') ->
  authenticateApiKey secret now st = (invalid "Invalid or revoked API key", st').
Proof.
  intros Hv. unfold authenticateApiKey, verifyKey. now rewrite Hv.
Qed.

(** C2. For every presented secret the verifier fails with [InvalidKey]
    when no stored candidate's hash matches, with [RevokedKey] when the
    matched record has [revokedAt] set, and with [ExpiredKey] when the
    matched record, not revoked (step 5 comes first), has an [expiresAt]
    that is present and in the past; [verifyKey] hands each kind on as
    the code of a result that is not valid. After a key is revoked,
    whatever operations follow, every verification that resolves to that
    key fails with [RevokedKey]; and a secret that resolved to the key
    before keeps resolving to it, so the correct secret fails with
    [RevokedKey] from then on. *)
Theorem verify_failure_kinds :
  (forall (secret : string) (now : Timestamp) (st : Store),
     (matchCandidate st secret = None ->
      fst (verify secret now st) = inl InvalidKey) /\
     (forall k, matchCandidate st secret = Some k -> revokedAt k <> None ->
      fst (verify secret now st) = inl RevokedKey) /\
     (forall k e, matchCandidate st secret = Some k -> revokedAt k = None ->
                  expiresAt k = Some e -> (e < now)%Z ->
      fst (verify secret now st) = inl ExpiredKey) /\
     (forall kind, fst (verify secret now st) = inl kind ->
      result (fst (verifyKey secret now st)) =
        mkVerifyResult false (Some kind) None)) /\
  (forall (actor keyId : string) (reason : option string) (tr : Timestamp)
          (st st1 : Store),
     revoke actor keyId reason tr st = (inr tt, st1) ->
     forall (ops : list Op) (now : Timestamp),
       (forall secret k,
          matchCandidate (run ops st1) secret = Some k -> id k = keyId ->
          fst (verify secret now (run ops st1)) = inl RevokedKey) /\
       (forall secret k,
          matchCandidate st secret = Some k -> id k = keyId ->
          fst (verify secret now (run ops st1)) = inl RevokedKey)).
Proof.
  split.
  - intros secret now st.
    destruct (verify_failure secret now st) as (Hnone & Hrev & Hexp).
    split; [intros Hm; now rewrite (Hnone Hm) |].
    split; [intros k Hm Hr; now rewrite (Hrev k Hm Hr) |].
    split.
    + intros k e Hm Hr He Hlt.
      assert (Hle : (e <= now)%Z) by lia.
      now rewrite (Hexp k e Hm Hr He Hle).
    + intros kind Hkind. unfold verifyKey.
      destruct (verify secret now st) as [[e | k] st']; cbn [fst] in *;
        [| discriminate].
      now injection Hkind as ->.
  - intros actor keyId reason tr st st1 Hrevoke ops now.
    assert (Hresolved : forall secret k,
              matchCandidate (run ops st1) secret = Some k -> id k = keyId ->
              fst (verify secret now (run ops st1)) = inl RevokedKey).
    { intros secret k Hm Hid.
      destruct (verify_failure secret now (run ops st1)) as (_ & Hrev & _).
      rewrite (Hrev k Hm); [reflexivity |].
      apply revoke_revokedEverywhere in Hrevoke.
      destruct (run_revokedEverywhere ops st1 keyId Hrevoke) as [_ Hall].
      apply matchCandidate_In in Hm as [Hin _]. now apply Hall. }
    split; [exact Hresolved |].
    intros secret k Hm Hid.
    destruct (run_matchCandidate (OpRevoke actor keyId reason tr :: ops) st
                secret k Hm) as (k' & Hm' & Hid').
    cbn [run fold_left exec] in Hm'. rewrite Hrevoke in Hm'. cbn [snd] in Hm'.
    apply (Hresolved secret k' Hm'). congruence.
Qed.

End VerificationFacts.

Lemma verify_failure_kinds_witness :
  Engine.revoke "user_abc123" "key_1" (Some "rotated") 2000%Z Fixture.created =
    (inr tt, Fixture.afterRevoke) /\
  @Engine.matchCandidate Fixture.platform Fixture.created
    (Fixture.secretOf Fixture.zeros) <> None /\
  fst (@Engine.verify Fixture.platform (Fixture.secretOf Fixture.zeros) 3000%Z
         (@Engine.run Fixture.platform
            [Engine.OpVerify (Fixture.secretOf Fixture.zeros) 2500%Z]
            Fixture.afterRevoke)) = inl Engine.RevokedKey.
Proof.
  assert (Hrevoke :
    Engine.revoke "user_abc123" "key_1" (Some "rotated") 2000%Z Fixture.created =
    (inr tt, Fixture.afterRevoke)) by reflexivity.
  split; [exact Hrevoke |]. split; [discriminate |].
  exact (proj2 (proj2 (@verify_failure_kinds Fixture.platform)
                  "user_abc123" "key_1" (Some "rotated") 2000%Z
                  Fixture.created Fixture.afterRevoke Hrevoke
                  [Engine.OpVerify (Fixture.secretOf Fixture.zeros) 2500%Z]
                  3000%Z)
           (Fixture.secretOf Fixture.zeros) _ eq_refl eq_refl).
Defined.

(** ** The secret is not retained *)

Section SecretFacts.
Import Schema Engine UnkeyPlan.
Context `{Platform}.

Lemma matchCandidate_sameDigest (st : Store) (s1 s2 : string) :
  sameDigest s1 s2 -> matchCandidate st s1 = matchCandidate st s2.
Proof.
  intros [Hhash Hprefix]. unfold matchCandidate. now rewrite Hhash, Hprefix.
Qed.

Lemma rowOf_sameDigest (req : CreateRequest) (newId : string)
                       (b1 b2 : list byte) (now : Timestamp) :
  sameDigest (fst (KeyGen.generateAPIKey b1)) (fst (KeyGen.generateAPIKey b2)) ->
  rowOf req newId b1 now = rowOf req newId b2 now.
Proof.
  intros [Hhash Hprefix]. unfold rowOf. rewrite Hhash.
  change (snd (KeyGen.generateAPIKey b1))
    with (KeyGen.prefixOf (fst (KeyGen.generateAPIKey b1))).
  change (snd (KeyGen.generateAPIKey b2))
    with (KeyGen.prefixOf (fst (KeyGen.generateAPIKey b2))).
  now rewrite Hprefix.
Qed.

(** Operations that differ only in secrets of the same digest leave the
    same store. *)
Lemma exec_opSim (o1 o2 : Op) (st : Store) :
  opSim o1 o2 -> exec o1 st = exec o2 st.
Proof.
  intros [req newId b1 b2 now Hd | s1 s2 now Hd | op]; cbn [exec].
  - rewrite !create_unfold.
    destruct (negb (authorizedOn (reqActor req) (reqSubject req)));
      [reflexivity |].
    destruct (checkAndConsume creationCapacity creationInterval
                ("create:" ++ reqSubject req) 1 now st) as [[e | u] st1];
      [reflexivity |].
    rewrite (rowOf_sameDigest req newId b1 b2 now Hd).
    now destruct (existsb (fun r => String.eqb (id r) newId) (keys st1)).
  - rewrite !verify_unfold, (matchCandidate_sameDigest st s1 s2 Hd).
    destruct (matchCandidate st s2) as [k |]; [| reflexivity].
    destruct (negb (isNull (revokedAt k))); [reflexivity |].
    now destruct (isExpired now k).
  - reflexivity.
Qed.

Lemma run_opSim (ops1 ops2 : list Op) (st : Store) :
  Forall2 opSim ops1 ops2 -> run ops1 st = run ops2 st.
Proof.
  intros Hsim. revert st.
  induction Hsim as [| o1 o2 ops1 ops2 Ho _ IH]; intros st; [reflexivity |].
  cbn [run fold_left]. rewrite (exec_opSim o1 o2 st Ho). apply IH.
Qed.

(** C3. The create operation returns the generated secret with the
    record, and the record it stores carries the secret's hash and its
    prefix; and the store a history reaches is the same when the secrets
    in it (the entropy of its creations, the secrets presented to its
    verifications) are replaced by others with the same hash and prefix,
    so what [get], the listings and the lookups by prefix and by subject
    return does not depend on a secret beyond its hash and prefix. *)
Theorem secret_not_retained :
  (forall (req : CreateRequest) (newId : string) (entropy : option (list byte))
          (now : Timestamp) (st st' : Store) (row : APIKey) (secret : string),
     create req newId entropy now st = (inr (row, secret), st') ->
     exists bytes,
       entropy = Some bytes /\
       secret = fst (KeyGen.generateAPIKey bytes) /\
       get st' newId = Some row /\
       keyHash row = hashSecret secret /\
       keyPrefix row = KeyGen.prefixOf secret) /\
  (forall (sess : ClerkAuth) (data : CreateData) (newId : string)
          (entropy : option (list byte)) (now : Timestamp) (st st' : Store)
          (res : CreatedKey),
     createApiKey sess data newId entropy now st = (Returned res, st') ->
     exists bytes,
       entropy = Some bytes /\
       key res = fst (KeyGen.generateAPIKey bytes) /\
       keyId res = newId) /\
  (forall (ops1 ops2 : list Op) (st : Store),
     Forall2 opSim ops1 ops2 ->
     run ops1 st = run ops2 st /\
     (forall keyId, get (run ops1 st) keyId = get (run ops2 st) keyId) /\
     (forall subj f limit offset now,
        listKeys (run ops1 st) subj f limit offset now =
        listKeys (run ops2 st) subj f limit offset now) /\
     (forall prefix,
        findByPrefix (run ops1 st) prefix = findByPrefix (run ops2 st) prefix) /\
     (forall subj limit offset,
        findBySubject (run ops1 st) subj limit offset =
        findBySubject (run ops2 st) subj limit offset) /\
     (forall keyId limit offset,
        listForKey (run ops1 st) keyId limit offset =
        listForKey (run ops2 st) keyId limit offset) /\
     (forall sess,
        listApiKeys sess (run ops1 st) = listApiKeys sess (run ops2 st))).
Proof.
  split; [| split].
  - intros req newId entropy now st st' row secret Hcreate.
    apply create_success in Hcreate as (bytes & He & Hrow & Hsecret & Hget).
    exists bytes. split; [exact He |]. split; [exact Hsecret |].
    split; [exact Hget |]. rewrite Hrow, Hsecret. split; reflexivity.
  - intros sess data newId entropy now st st' res. unfold createApiKey.
    destruct (negb (truthy (userId sess))); [discriminate |].
    match goal with
    | |- context [create ?r newId entropy now st] =>
        destruct (create r newId entropy now st) as [[e | [row secret]] st1]
          eqn:Hcreate
    end; [discriminate |].
    intros Hres. injection Hres as <- <-.
    apply create_success in Hcreate as (bytes & He & Hrow & Hsecret & _).
    exists bytes. split; [exact He |]. split; [exact Hsecret |].
    now rewrite Hrow.
  - intros ops1 ops2 st Hsim.
    rewrite (run_opSim ops1 ops2 st Hsim). repeat split.
Qed.

End SecretFacts.

Lemma secret_not_retained_witness :
  Fixture.secretOf Fixture.zeros <> Fixture.secretOf Fixture.zeros' /\
  @Engine.run Fixture.platform
    [Engine.OpCreate (Fixture.request ["projects:read"] None) "key_1"
       (Some Fixture.zeros) 1000%Z;
     Engine.OpVerify (Fixture.secretOf Fixture.zeros) 1500%Z]
    Engine.emptyStore =
  @Engine.run Fixture.platform
    [Engine.OpCreate (Fixture.request ["projects:read"] None) "key_1"
       (Some Fixture.zeros') 1000%Z;
     Engine.OpVerify (Fixture.secretOf Fixture.zeros') 1500%Z]
    Engine.emptyStore.
Proof.
  split; [discriminate |].
  assert (Hd : @Engine.sameDigest Fixture.platform
                 (Fixture.secretOf Fixture.zeros)
                 (Fixture.secretOf Fixture.zeros'))
    by (split; reflexivity).
  apply (proj2 (proj2 (@secret_not_retained Fixture.platform))).
  constructor; [now apply Engine.simCreate |].
  constructor; [now apply Engine.simVerify | constructor].
Defined.

(** ** The server actions and the middleware act through the service *)

Section ActionFacts.
Import Schema Engine UnkeyPlan.
Context `{Platform} `{IdentityProvider}.

(** What [authenticateApiKey] writes is what the verification writes. *)
Lemma authenticateApiKey_store (apiKey : string) (now : Timestamp) (st : Store) :
  snd (authenticateApiKey apiKey now st) = exec (OpVerify apiKey now) st.
Proof.
  unfold authenticateApiKey, verifyKey. cbn [exec].
  destruct (verify apiKey now st) as [[e | k] st']; cbn; [reflexivity |].
  repeat match goal with
         | |- context [if ?c then _ else _] => destruct c
         | |- context [match ?x with Some _ => _ | None => _ end] => destruct x
         end; reflexivity.
Qed.

(** Every action leaves the store it found or the store one operation of
    the service leaves: the properties of histories cover the actions. *)
Lemma actions_are_operations (sess : ClerkAuth) (now : Timestamp) (st : Store) :
  (forall data newId entropy,
     snd (createApiKey sess data newId entropy now st) = st \/
     exists req, snd (createApiKey sess data newId entropy now st) =
                 exec (OpCreate req newId entropy now) st) /\
  (forall keyId,
     snd (UnkeyPlan.revokeApiKey sess keyId now st) = st \/
     exists actor, snd (UnkeyPlan.revokeApiKey sess keyId now st) =
                   exec (OpRevoke actor keyId None now) st) /\
  (forall keyId reason,
     snd (ClerkPlan.revokeApiKey sess keyId reason now st) = st \/
     exists actor, snd (ClerkPlan.revokeApiKey sess keyId reason now st) =
                   exec (OpRevoke actor keyId reason now) st) /\
  (forall request,
     snd (withAuth request sess now st) = st \/
     exists secret, snd (withAuth request sess now st) =
                    exec (OpVerify secret now) st).
Proof.
  split; [| split; [| split]].
  - intros data newId entropy. unfold createApiKey.
    destruct (negb (truthy (userId sess))); [now left |].
    match goal with
    | |- context [create ?r newId entropy now st] =>
        right; exists r; cbn [exec];
        destruct (create r newId entropy now st) as [[e | [row secret]] st1]
    end; reflexivity.
  - intros keyId. unfold UnkeyPlan.revokeApiKey.
    destruct (negb (truthy (userId sess))); [now left |].
    destruct (get st keyId) as [info |]; [| now left].
    destruct (negb (String.eqb (subject info) _)); [now left |].
    match goal with
    | |- context [revoke ?a keyId None now st] =>
        right; exists a; cbn [exec];
        destruct (revoke a keyId None now st) as [[e | u] st1]
    end; reflexivity.
  - intros keyId reason. unfold ClerkPlan.revokeApiKey.
    destruct (negb (truthy (userId sess)) || negb (truthy (orgId sess)));
      [now left |].
    destruct (get st keyId) as [info |]; [| now left].
    destruct (negb (String.eqb (subject info) _)); [now left |].
    match goal with
    | |- context [revoke ?a keyId reason now st] =>
        right; exists a; cbn [exec];
        destruct (revoke a keyId reason now st) as [[e | u] st1]
    end; reflexivity.
  - intros request. unfold withAuth.
    destruct (truthy (xApiKey request)).
    + right. exists (orElse (xApiKey request) "").
      rewrite <- authenticateApiKey_store.
      destruct (authenticateApiKey (orElse (xApiKey request) "") now st)
        as [res st'].
      now destruct (negb (valid res)).
    + left. now destruct (truthy (userId sess)).
Qed.

End ActionFacts.

(** ** The service and the middleware on concrete stores *)

Section Examples.
Import Schema Engine UnkeyPlan Fixture.

(** The end-to-end run of the specification: a key with the scope
    ["exports:write"] and no expiry verifies, grants ["exports:write"] and
    not ["projects:read"]; once revoked with reason "rotated" its secret
    is answered [RevokedKey], and the key is listed under [revoked] and
    not under [active]. *)
Example end_to_end :
  (exists row,
     fst (@verify platform (secretOf ones) 1500%Z exporting) = inr row /\
     Scopes.hasScope (Some (scopes row)) "exports:write" = true /\
     Scopes.hasScope (Some (scopes row)) "projects:read" = false) /\
  fst (@verify platform (secretOf ones) 2500%Z exportingRevoked) = inl RevokedKey /\
  map id (data (listKeys exportingRevoked "org_xyz" revoked None None 2500%Z)) =
    ["key_3"] /\
  data (listKeys exportingRevoked "org_xyz" active None None 2500%Z) = [].
Proof.
  split; [eexists; split; [reflexivity | split; reflexivity] |].
  split; [reflexivity |]. split; reflexivity.
Qed.

(** A key that expires at 1500 verifies before and is answered
    [ExpiredKey] from then on; an unknown secret is answered [InvalidKey]. *)
Example expiry_and_unknown :
  (exists row, fst (@verify platform (secretOf ones) 1499%Z expiring) = inr row) /\
  fst (@verify platform (secretOf ones) 1500%Z expiring) = inl ExpiredKey /\
  fst (@verify platform (secretOf zeros) 1499%Z expiring) = inl InvalidKey.
Proof.
  split; [eexists; reflexivity |]. split; reflexivity.
Qed.

(** The middleware on the same stores: the valid key is accepted with its
    scopes; the revoked key, the expired key and an unknown secret all get
    the same 401. *)
Example withAuth_on_keys :
  fst (@withAuth platform clerk (mkRequest (Some (secretOf ones)) None)
         (mkClerkAuth None None) 1500%Z exporting) =
    inr (mkAuthContext (Some "user_abc123") (Some "org_xyz")
           (Some ["exports:write"]) api_key) /\
  fst (@withAuth platform clerk (mkRequest (Some (secretOf ones)) None)
         (mkClerkAuth None None) 2500%Z exportingRevoked) =
    inl (mkResponse (Some "Invalid or revoked API key") 401) /\
  fst (@withAuth platform clerk (mkRequest (Some (secretOf ones)) None)
         (mkClerkAuth None None) 1500%Z expiring) =
    inl (mkResponse (Some "Invalid or revoked API key") 401) /\
  fst (@withAuth platform clerk (mkRequest (Some (secretOf zeros)) None)
         (mkClerkAuth None None) 1500%Z exporting) =
    inl (mkResponse (Some "Invalid or revoked API key") 401) /\
  fst (@withAuth platform clerk (mkRequest None None)
         (mkClerkAuth None None) 1500%Z exporting) =
    inl (mkResponse (Some "Unauthorized") 401).
Proof. repeat split. Qed.

End Examples.

(** ** More on the scope evaluator *)

Section ScopeMore.
Import Scopes.

Lemma append_inv_head (s a b : string) : s ++ a = s ++ b -> a = b.
Proof.
  induction s as [| c s IH]; cbn [append]; intros Heq; [exact Heq |].
  injection Heq as Heq. now apply IH.
Qed.

Lemma hd_split_append (res rest : string) :
  noSeparator res = true ->
  hd EmptyString (split ":" (res ++ String ":" rest)) = res.
Proof.
  intros Hno. symmetry. apply resourceOf_hd_split.
  split; [assumption | right; now exists rest].
Qed.

(** X1. Granting more never takes access away, and the check reads the
    grant as a set: a grant contained in another gives no scope the other
    does not give, and two grants with the same members, in any order and
    with any repetitions, answer alike. *)
Theorem hasScope_monotone (granted granted' : list string) (req : string) :
  incl granted granted' ->
  (hasScope (Some granted) req = true -> hasScope (Some granted') req = true) /\
  (incl granted' granted ->
   hasScope (Some granted) req = hasScope (Some granted') req).
Proof.
  intros Hincl.
  assert (Hmono : forall g g', incl g g' ->
            hasScope (Some g) req = true -> hasScope (Some g') req = true).
  { intros g g' Hi. rewrite !hasScope_Some, !orb_true_iff, !includes_In.
    intros [[Hw | He] | Hr]; [left; left | left; right | right]; now apply Hi. }
  split; [now apply Hmono |].
  intros Hback.
  destruct (hasScope (Some granted) req) eqn:Hg.
  - symmetry. now apply (Hmono granted granted').
  - destruct (hasScope (Some granted') req) eqn:Hg'; [| reflexivity].
    rewrite (Hmono granted' granted Hback Hg') in Hg. discriminate.
Qed.

Lemma hasScope_monotone_witness :
  incl ["projects:read"] ["exports:*"; "projects:read"] /\
  (hasScope (Some ["projects:read"]) "projects:read" = true ->
   hasScope (Some ["exports:*"; "projects:read"]) "projects:read" = true).
Proof.
  assert (Hincl : incl ["projects:read"] ["exports:*"; "projects:read"]).
  { intros s [<- | []]. right. now left. }
  split; [exact Hincl |].
  exact (proj1 (hasScope_monotone ["projects:read"]
                  ["exports:*"; "projects:read"] "projects:read" Hincl)).
Defined.

(** X2. Only the first level of a scope is a resource. The grant
    ["<res>:*"] gives every scope that starts with ["<res>:"], however
    many further levels it has; a wildcard below the first level,
    ["<res>:<sub>:*"], gives nothing but the scope spelled exactly like
    it. *)
Theorem hasScope_first_level_only (res sub : string) :
  noSeparator res = true ->
  (forall deeper,
     hasScope (Some [res ++ ":*"]) (res ++ String ":" deeper) = true) /\
  (forall req,
     hasScope (Some [res ++ String ":" (sub ++ ":*")]) req = true <->
     req = res ++ String ":" (sub ++ ":*")).
Proof.
  intros Hno. split.
  - intros deeper. rewrite hasScope_Some, (hd_split_append res deeper Hno).
    rewrite !orb_true_iff, !includes_In. right. now left.
  - intros req. rewrite hasScope_Some, !orb_true_iff, !includes_In.
    cbn [In]. split.
    + intros [[[Hw | []] | [He | []]] | [Hr | []]].
      * exfalso. destruct res as [| c [| d r]]; cbn in Hw; discriminate.
      * now symmetry.
      * exfalso.
        assert (Hhd : hd EmptyString (split ":" req) = res).
        { rewrite <- (hd_split_append res (sub ++ ":*") Hno), Hr.
          destruct (hd_split_resourceOf req) as [Hh _].
          now rewrite (hd_split_append _ "*" Hh). }
        rewrite Hhd in Hr. apply append_inv_head in Hr.
        injection Hr as Hr.
        destruct sub as [| c [| d r]]; cbn in Hr; discriminate.
    + intros ->. left. right. now left.
Qed.

Lemma hasScope_first_level_only_witness :
  noSeparator "projects" = true /\
  hasScope (Some ["projects:*"]) "projects:exports:write" = true /\
  hasScope (Some ["projects:exports:*"]) "projects:exports:write" = false.
Proof.
  split; [reflexivity |].
  destruct (hasScope_first_level_only "projects" "exports" eq_refl)
    as [Hdeep Hexact].
  split; [exact (Hdeep "exports:write") |].
  destruct (hasScope (Some ["projects:exports:*"]) "projects:exports:write")
    eqn:Hcheck; [| reflexivity].
  apply Hexact in Hcheck. discriminate Hcheck.
Defined.

End ScopeMore.

(** ** More on the key generator *)

Section KeyGenMore.
Import KeyGen Encoding.

Lemma allBelow_spec (n : nat) (f : N -> bool) :
  allBelow n f = true -> forall k, (k < N.of_nat n)%N -> f k = true.
Proof.
  induction n as [| n IH]; intros Hall k Hk; [lia |].
  cbn [allBelow] in Hall. apply andb_prop in Hall as [Hn Hrest].
  destruct (N.eq_dec k (N.of_nat n)) as [-> | Hne]; [exact Hn |].
  apply IH; [exact Hrest | lia].
Qed.

Lemma to_N_below (x : byte) : (Byte.to_N x < N.of_nat 256)%N.
Proof. pose proof (Byte.to_N_bounded x). cbn. lia. Qed.

Lemma to_N_inj (x y : byte) : Byte.to_N x = Byte.to_N y -> x = y.
Proof.
  intros Heq. pose proof (Byte.of_to_N x) as Hx.
  rewrite Heq, Byte.of_to_N in Hx. now injection Hx.
Qed.

(** A check that passed on all numbers below 256 holds of every byte. *)
Lemma every_byte (f : N -> bool) :
  allBelow 256 f = true -> forall x : byte, f (Byte.to_N x) = true.
Proof. intros Hall x. apply (allBelow_spec 256 f Hall), to_N_below. Qed.

Lemma every_two_bytes (f : N -> N -> bool) :
  allBelow 256 (fun x => allBelow 256 (f x)) = true ->
  forall x y : byte, f (Byte.to_N x) (Byte.to_N y) = true.
Proof.
  intros Hall x y.
  apply (allBelow_spec 256 (f (Byte.to_N x))); [| apply to_N_below].
  apply (every_byte (fun x => allBelow 256 (f x)) Hall).
Qed.

Lemma land_63_below (n : N) : (N.land n 63 < N.of_nat 64)%N.
Proof.
  change 63%N with (N.ones 6). rewrite N.land_ones.
  apply N.mod_lt. discriminate.
Qed.

(** The character of a six-bit group is URL-safe, and tells the group. *)
Lemma sextet_urlSafe (n : N) : urlSafe (sextet n) = true.
Proof.
  unfold sextet.
  apply (allBelow_spec 64
           (fun k => urlSafe match String.get (N.to_nat k) alphabet with
                             | Some c => c
                             | None => "A"%char
                             end));
    [vm_compute; reflexivity | apply land_63_below].
Qed.

Lemma sextet_position (n : N) : position (sextet n) alphabet = N.land n 63.
Proof.
  unfold sextet. apply N.eqb_eq.
  apply (allBelow_spec 64
           (fun k => N.eqb (position match String.get (N.to_nat k) alphabet with
                                     | Some c => c
                                     | None => "A"%char
                                     end alphabet) k));
    [vm_compute; reflexivity | apply land_63_below].
Qed.

Lemma sextet_inj (n m : N) :
  sextet n = sextet m -> N.land n 63 = N.land m 63.
Proof.
  intros Heq. rewrite <- (sextet_position n), <- (sextet_position m).
  now rewrite Heq.
Qed.

(** The bytes are recovered from the groups. *)
Lemma byte1_groups (x y : byte) :
  byte1 (group1 (Byte.to_N x)) (group2 (Byte.to_N x) (Byte.to_N y)) = Byte.to_N x.
Proof.
  apply N.eqb_eq.
  apply (every_two_bytes (fun x y => N.eqb (byte1 (group1 x) (group2 x y)) x)).
  vm_compute. reflexivity.
Qed.

Lemma byte1_last (x : byte) :
  byte1 (group1 (Byte.to_N x))
        (N.land (N.shiftl (N.land (Byte.to_N x) 3) 4) 63) = Byte.to_N x.
Proof.
  apply N.eqb_eq.
  apply (every_byte
           (fun x => N.eqb (byte1 (group1 x) (N.land (N.shiftl (N.land x 3) 4) 63)) x)).
  vm_compute. reflexivity.
Qed.

Lemma group2_low (x y : byte) :
  N.land (group2 (Byte.to_N x) (Byte.to_N y)) 15 = N.shiftr (Byte.to_N y) 4.
Proof.
  apply N.eqb_eq.
  apply (every_two_bytes (fun x y => N.eqb (N.land (group2 x y) 15) (N.shiftr y 4))).
  vm_compute. reflexivity.
Qed.

Lemma group3_high (y z : byte) :
  N.shiftr (group3 (Byte.to_N y) (Byte.to_N z)) 2 = N.land (Byte.to_N y) 15.
Proof.
  apply N.eqb_eq.
  apply (every_two_bytes (fun y z => N.eqb (N.shiftr (group3 y z) 2) (N.land y 15))).
  vm_compute. reflexivity.
Qed.

Lemma group3_last_high (y : byte) :
  N.shiftr (N.land (N.shiftl (N.land (Byte.to_N y) 15) 2) 63) 2 =
  N.land (Byte.to_N y) 15.
Proof.
  apply N.eqb_eq.
  apply (every_byte
           (fun y => N.eqb (N.shiftr (N.land (N.shiftl (N.land y 15) 2) 63) 2)
                           (N.land y 15))).
  vm_compute. reflexivity.
Qed.

Lemma byte_halves (y : byte) :
  N.lor (N.shiftl (N.shiftr (Byte.to_N y) 4) 4) (N.land (Byte.to_N y) 15) =
  Byte.to_N y.
Proof.
  apply N.eqb_eq.
  apply (every_byte
           (fun y => N.eqb (N.lor (N.shiftl (N.shiftr y 4) 4) (N.land y 15)) y)).
  vm_compute. reflexivity.
Qed.

Lemma byte3_groups (y z : byte) :
  byte3 (group3 (Byte.to_N y) (Byte.to_N z)) (group4 (Byte.to_N z)) = Byte.to_N z.
Proof.
  apply N.eqb_eq.
  apply (every_two_bytes (fun y z => N.eqb (byte3 (group3 y z) (group4 z)) z)).
  vm_compute. reflexivity.
Qed.

Lemma byte2_groups (x y z : byte) :
  byte2 (group2 (Byte.to_N x) (Byte.to_N y))
        (group3 (Byte.to_N y) (Byte.to_N z)) = Byte.to_N y.
Proof.
  unfold byte2. rewrite group2_low, group3_high. apply byte_halves.
Qed.

Lemma byte2_last (x y : byte) :
  byte2 (group2 (Byte.to_N x) (Byte.to_N y))
        (N.land (N.shiftl (N.land (Byte.to_N y) 15) 2) 63) = Byte.to_N y.
Proof.
  unfold byte2. rewrite group2_low, group3_last_high. apply byte_halves.
Qed.

(** The encoding loses nothing. *)
Lemma base64url_inj (b1 b2 : list byte) :
  base64url b1 = base64url b2 -> b1 = b2.
Proof.
  revert b2.
  induction b1 as [| x | x y | x y z rest IH] using buffer_ind3;
    intros [| x' [| y' [| z' rest']]] Heq; cbn [base64url] in Heq;
    try discriminate Heq; try reflexivity.
  - injection Heq as H1 H2.
    apply sextet_inj in H1, H2.
    change (group1 (Byte.to_N x) = group1 (Byte.to_N x')) in H1.
    f_equal. apply to_N_inj.
    rewrite <- (byte1_last x), <- (byte1_last x'), H1.
    f_equal. exact H2.
  - injection Heq as H1 H2 H3.
    apply sextet_inj in H1, H2, H3.
    change (group1 (Byte.to_N x) = group1 (Byte.to_N x')) in H1.
    change (group2 (Byte.to_N x) (Byte.to_N y) =
            group2 (Byte.to_N x') (Byte.to_N y')) in H2.
    assert (Hx : x = x').
    { apply to_N_inj. rewrite <- (byte1_groups x y), <- (byte1_groups x' y').
      now rewrite H1, H2. }
    assert (Hy : y = y').
    { apply to_N_inj. rewrite <- (byte2_last x y), <- (byte2_last x' y'), H2.
      f_equal. exact H3. }
    now subst.
  - injection Heq as H1 H2 H3 H4 Hrest.
    apply sextet_inj in H1, H2, H3, H4.
    change (group1 (Byte.to_N x) = group1 (Byte.to_N x')) in H1.
    change (group2 (Byte.to_N x) (Byte.to_N y) =
            group2 (Byte.to_N x') (Byte.to_N y')) in H2.
    change (group3 (Byte.to_N y) (Byte.to_N z) =
            group3 (Byte.to_N y') (Byte.to_N z')) in H3.
    change (group4 (Byte.to_N z) = group4 (Byte.to_N z')) in H4.
    assert (Hx : x = x').
    { apply to_N_inj. rewrite <- (byte1_groups x y), <- (byte1_groups x' y').
      now rewrite H1, H2. }
    assert (Hy : y = y').
    { apply to_N_inj. rewrite <- (byte2_groups x y z), <- (byte2_groups x' y' z').
      now rewrite H2, H3. }
    assert (Hz : z = z').
    { apply to_N_inj. rewrite <- (byte3_groups y z), <- (byte3_groups y' z').
      now rewrite H3, H4. }
    subst. f_equal. f_equal. f_equal. now apply IH.
Qed.

Lemma base64url_urlSafe (buf : list byte) : allUrlSafe (base64url buf) = true.
Proof.
  induction buf as [| x | x y | x y z rest IH] using buffer_ind3;
    cbn [base64url allUrlSafe]; rewrite ?sextet_urlSafe, ?IH; reflexivity.
Qed.

(** X3. Every character of a generated key, whatever bytes the random
    source gave, is a letter, a digit, ['-'] or ['_']: the key can be put
    in a header or a URL as it is. *)
Theorem generateAPIKey_url_safe (bytes : list byte) :
  allUrlSafe (fst (generateAPIKey bytes)) = true.
Proof.
  cbn [generateAPIKey fst tag append allUrlSafe].
  now rewrite base64url_urlSafe.
Qed.

(** X4. The key keeps all of the entropy: different byte strings from the
    random source give different keys. *)
Theorem generateAPIKey_injective (b1 b2 : list byte) :
  b1 <> b2 -> fst (generateAPIKey b1) <> fst (generateAPIKey b2).
Proof.
  intros Hne Heq. apply Hne. apply base64url_inj.
  cbn [generateAPIKey fst tag append] in Heq. now injection Heq.
Qed.

Lemma generateAPIKey_injective_witness :
  Fixture.zeros <> Fixture.zeros' /\
  fst (generateAPIKey Fixture.zeros) <> fst (generateAPIKey Fixture.zeros').
Proof.
  assert (Hne : Fixture.zeros <> Fixture.zeros') by discriminate.
  split; [exact Hne |].
  exact (generateAPIKey_injective Fixture.zeros Fixture.zeros' Hne).
Defined.

(** X5. The public prefix shows the first seven bytes of the entropy at
    most: two byte strings that agree on their first seven bytes give the
    same prefix, whatever follows. *)
Theorem generateAPIKey_prefix_seven_bytes (b1 b2 : list byte) :
  7 <= List.length b1 ->
  firstn 7 b1 = firstn 7 b2 ->
  snd (generateAPIKey b1) = snd (generateAPIKey b2).
Proof.
  intros Hlen Hfirst.
  destruct b1 as [| a1 [| a2 [| a3 [| a4 [| a5 [| a6 [| a7 r1]]]]]]];
    cbn [List.length] in Hlen; try lia.
  destruct b2 as [| c1 [| c2 [| c3 [| c4 [| c5 [| c6 [| c7 r2]]]]]]];
    cbn [firstn] in Hfirst; try discriminate Hfirst.
  injection Hfirst as -> -> -> -> -> -> ->.
  destruct r1 as [| h1 [| i1 r1]]; destruct r2 as [| h2 [| i2 r2]]; reflexivity.
Qed.

Lemma generateAPIKey_prefix_seven_bytes_witness :
  7 <= List.length Fixture.zeros /\
  firstn 7 Fixture.zeros = firstn 7 Fixture.zeros' /\
  snd (generateAPIKey Fixture.zeros) = snd (generateAPIKey Fixture.zeros').
Proof.
  assert (Hlen : 7 <= List.length Fixture.zeros) by (cbn; lia).
  assert (Hfirst : firstn 7 Fixture.zeros = firstn 7 Fixture.zeros')
    by reflexivity.
  split; [exact Hlen |]. split; [exact Hfirst |].
  exact (generateAPIKey_prefix_seven_bytes Fixture.zeros Fixture.zeros'
           Hlen Hfirst).
Defined.

End KeyGenMore.

(** ** More on the middleware *)

Section MiddlewareMore.
Import Schema Engine UnkeyPlan.
Context `{Platform} `{IdentityProvider}.

(** [result.meta?.clerkOrgId] of a verified key. *)
Lemma authenticateApiKey_verified (apiKey : string) (now : Timestamp)
                                  (st st' : Store) (k : APIKey) :
  verify apiKey now st = (inr k, st') ->
  authenticateApiKey apiKey now st =
  (let org := match subjectType k with
              | organization => Some (subject k)
              | user => None
              end in
   let accepted :=
     mkApiKeyAuthResult true (Some (createdBy k)) org (Some (scopes k)) None in
   if negb (getUser (createdBy k)) then invalid "User no longer exists"
   else if truthy org
        then match getOrganizationMembershipList (createdBy k) with
             | None => invalid "Organization verification failed"
             | Some memberships =>
                 if existsb (fun o => String.eqb o (orElse org "")) memberships
                 then accepted
                 else invalid "User no longer in organization"
             end
        else accepted,
   st').
Proof.
  intros Hv. unfold authenticateApiKey, verifyKey. rewrite Hv.
  cbn [error result resultValid resultMeta negb clerkUserId clerkOrgId
       metaScopes orElse].
  destruct (getUser (createdBy k)); cbn [negb]; [| reflexivity].
  destruct (truthy match subjectType k with
                   | user => None
                   | organization => Some (subject k)
                   end); [| reflexivity].
  destruct (getOrganizationMembershipList (createdBy k)) as [ms |];
    [| reflexivity].
  now destruct (existsb _ ms).
Qed.

Lemma truthy_org (k : APIKey) :
  truthy match subjectType k with
         | organization => Some (subject k)
         | user => None
         end = true <->
  subjectType k = organization /\ subject k <> EmptyString.
Proof.
  destruct (subjectType k); cbn [truthy].
  - split; [discriminate | intros [Hc _]; discriminate Hc].
  - destruct (subject k) as [| c rest].
    + split; [discriminate | intros [_ Hne]; now elim Hne].
    + split; [intros _; split; [reflexivity | discriminate] | reflexivity].
Qed.

Lemma existsb_eqb_In (x : string) (l : list string) :
  existsb (fun o => String.eqb o x) l = true <-> In x l.
Proof.
  rewrite existsb_exists. split.
  - intros [y [Hy Heq]]. apply String.eqb_eq in Heq. now subst.
  - intros Hin. exists x. split; [assumption | apply String.eqb_refl].
Qed.

(** What an accepted key tells. *)
Lemma authenticateApiKey_valid_inv (apiKey : string) (now : Timestamp)
                                   (st : Store) :
  valid (fst (authenticateApiKey apiKey now st)) = true ->
  exists k,
    fst (verify apiKey now st) = inr k /\
    getUser (createdBy k) = true /\
    (subjectType k = organization -> subject k <> EmptyString ->
     exists memberships,
       getOrganizationMembershipList (createdBy k) = Some memberships /\
       In (subject k) memberships) /\
    fst (authenticateApiKey apiKey now st) =
      mkApiKeyAuthResult true (Some (createdBy k))
        match subjectType k with
        | organization => Some (subject k)
        | user => None
        end
        (Some (scopes k)) None.
Proof.
  destruct (verify apiKey now st) as [[e | k] st'] eqn:Hv.
  - rewrite (authenticateApiKey_failure apiKey now st st' e Hv). discriminate.
  - rewrite (authenticateApiKey_verified apiKey now st st' k Hv).
    cbv zeta. cbn [fst]. intros Hvalid. exists k.
    destruct (getUser (createdBy k)); cbn [negb] in *; [| discriminate].
    split; [reflexivity |]. split; [reflexivity |].
    destruct (truthy match subjectType k with
                     | organization => Some (subject k)
                     | user => None
                     end) eqn:Horg.
    + destruct (getOrganizationMembershipList (createdBy k)) as [ms |];
        [| discriminate].
      destruct (existsb _ ms) eqn:Hmem; [| discriminate].
      split; [| reflexivity].
      intros Hty Hne. exists ms. split; [reflexivity |].
      rewrite Hty in Hmem. cbn [orElse] in Hmem. now apply existsb_eqb_In.
    + split; [| reflexivity].
      intros Hty Hne. exfalso.
      assert (Ht : truthy match subjectType k with
                          | organization => Some (subject k)
                          | user => None
                          end = true) by (apply truthy_org; now split).
      congruence.
Qed.

(** X6. [authenticateApiKey] accepts a key only when the verification
    resolved it to a record, the user who created the key still exists,
    and, for a key of an organization, that organization is among the
    user's memberships; what it then returns are that user, that
    organization and the scopes of the record. A creator who was deleted
    or left the organization makes the key unusable although the key
    itself is neither revoked nor expired. *)
Theorem authenticateApiKey_accepts (apiKey : string) (now : Timestamp)
                                   (st : Store) :
  valid (fst (authenticateApiKey apiKey now st)) = true ->
  exists k,
    fst (verify apiKey now st) = inr k /\
    getUser (createdBy k) = true /\
    (subjectType k = organization -> subject k <> EmptyString ->
     exists memberships,
       getOrganizationMembershipList (createdBy k) = Some memberships /\
       In (subject k) memberships) /\
    authUserId (fst (authenticateApiKey apiKey now st)) = Some (createdBy k) /\
    authScopes (fst (authenticateApiKey apiKey now st)) = Some (scopes k) /\
    authError (fst (authenticateApiKey apiKey now st)) = None.
Proof.
  intros Hvalid.
  destruct (authenticateApiKey_valid_inv apiKey now st Hvalid)
    as (k & Hv & Hu & Hm & Hres).
  exists k. rewrite Hres. repeat (split; [assumption || reflexivity |]).
  reflexivity.
Qed.

(** X7. A presented API key takes the place of the session: when the
    request carries a non-empty [x-api-key], the answer of [withAuth] does
    not depend on the session, a context it returns is an [api_key]
    context of an accepted key, and a key that is not accepted is
    answered 401 even when a valid session comes with the request. *)
Theorem withAuth_key_first (request : Request) (sess : ClerkAuth)
                           (now : Timestamp) (st : Store) :
  truthy (xApiKey request) = true ->
  (forall sess', withAuth request sess now st = withAuth request sess' now st) /\
  (forall ctx, fst (withAuth request sess now st) = inr ctx ->
     authMethod ctx = api_key /\
     valid (fst (authenticateApiKey (orElse (xApiKey request) "") now st)) = true) /\
  (valid (fst (authenticateApiKey (orElse (xApiKey request) "") now st)) = false ->
   exists message,
     fst (withAuth request sess now st) = inl (mkResponse message 401)).
Proof.
  intros Hkey. unfold withAuth. rewrite Hkey.
  destruct (authenticateApiKey (orElse (xApiKey request) "") now st)
    as [res st'] eqn:Hauth. cbn [fst].
  split; [reflexivity |]. split.
  - intros ctx. destruct (valid res); cbn [negb fst]; [| discriminate].
    intros Hctx. injection Hctx as <-. split; reflexivity.
  - intros ->. cbn [negb fst]. now eexists.
Qed.

(** X8. An absent [x-api-key] header and an empty one are the same to
    [withAuth]: the key service is not asked and the store is left as it
    is; without a session user the answer is 401 "Unauthorized", and no
    protected route serves the request. *)
Theorem withAuth_without_key (request : Request) (sess : ClerkAuth)
                             (now : Timestamp) (st : Store) :
  xApiKey request = None \/ xApiKey request = Some EmptyString ->
  withAuth request sess now st =
    withAuth (mkRequest None (authorization request)) sess now st /\
  snd (withAuth request sess now st) = st /\
  (truthy (userId sess) = false ->
   withAuth request sess now st =
     (inl (mkResponse (Some "Unauthorized") 401), st) /\
   forall required,
     protectedRoute required request sess now st =
     (inl (mkResponse (Some "Unauthorized") 401), st)).
Proof.
  intros Hheader.
  assert (Hfalsy : truthy (xApiKey request) = false)
    by (destruct Hheader as [-> | ->]; reflexivity).
  unfold protectedRoute, withAuth. rewrite Hfalsy. cbn [xApiKey truthy].
  split; [reflexivity |]. split; [now destruct (truthy (userId sess)) |].
  intros ->. split; reflexivity.
Qed.

(** X9. A protected route serves a request that carries an API key only
    when the key verifies, its creator still exists and the key's scopes
    grant the required scope; the resources served are those of the key's
    organization, or of its creator for a key of a user. *)
Theorem protectedRoute_served_by_key (required : string) (request : Request)
                                     (sess : ClerkAuth) (now : Timestamp)
                                     (st : Store) (owner : option string) :
  truthy (xApiKey request) = true ->
  fst (protectedRoute required request sess now st) = inr owner ->
  exists k,
    fst (verify (orElse (xApiKey request) "") now st) = inr k /\
    getUser (createdBy k) = true /\
    Scopes.grants (scopes k) required /\
    owner = match subjectType k with
            | organization => Some (subject k)
            | user => Some (createdBy k)
            end.
Proof.
  intros Hkey. unfold protectedRoute, withAuth. rewrite Hkey.
  destruct (authenticateApiKey (orElse (xApiKey request) "") now st)
    as [res st'] eqn:Hauth.
  destruct (valid res) eqn:Hvalid; cbn [negb fst]; [| discriminate].
  assert (Hv : valid (fst (authenticateApiKey (orElse (xApiKey request) "")
                             now st)) = true) by now rewrite Hauth.
  destruct (authenticateApiKey_valid_inv _ now st Hv) as (k & Hk & Hu & _ & Hres).
  rewrite Hauth in Hres. cbn [fst] in Hres. subst res.
  cbn [ctxScopes ctxOrgId ctxUserId authScopes authOrgId authUserId].
  destruct (Scopes.hasScope (Some (scopes k)) required) eqn:Hscope;
    cbn [negb fst]; [| discriminate].
  intros Howner. injection Howner as <-.
  exists k. split; [exact Hk |]. split; [exact Hu |].
  split; [now apply hasScope_grants |].
  now destruct (subjectType k).
Qed.

End MiddlewareMore.

Lemma authenticateApiKey_accepts_witness :
  UnkeyPlan.valid
    (fst (@UnkeyPlan.authenticateApiKey Fixture.platform Fixture.clerk
            (Fixture.secretOf Fixture.ones) 1500%Z Fixture.exporting)) = true /\
  UnkeyPlan.authScopes
    (fst (@UnkeyPlan.authenticateApiKey Fixture.platform Fixture.clerk
            (Fixture.secretOf Fixture.ones) 1500%Z Fixture.exporting)) =
  Some ["exports:write"].
Proof.
  split; [reflexivity |].
  destruct (@authenticateApiKey_accepts Fixture.platform Fixture.clerk
              (Fixture.secretOf Fixture.ones) 1500%Z Fixture.exporting eq_refl)
    as (k & Hk & _ & _ & _ & Hscopes & _).
  rewrite Hscopes. vm_compute in Hk. injection Hk as <-. reflexivity.
Defined.

Lemma withAuth_key_first_witness :
  UnkeyPlan.truthy (Some (Fixture.secretOf Fixture.ones)) = true /\
  exists message,
    fst (@UnkeyPlan.withAuth Fixture.platform Fixture.clerk
           (UnkeyPlan.mkRequest (Some (Fixture.secretOf Fixture.ones)) None)
           Fixture.interactive 2500%Z Fixture.exportingRevoked) =
    inl (UnkeyPlan.mkResponse message 401).
Proof.
  split; [reflexivity |].
  exact (proj2 (proj2 (@withAuth_key_first Fixture.platform Fixture.clerk
                         (UnkeyPlan.mkRequest
                            (Some (Fixture.secretOf Fixture.ones)) None)
                         Fixture.interactive 2500%Z Fixture.exportingRevoked
                         eq_refl)) eq_refl).
Defined.

Lemma withAuth_without_key_witness :
  @UnkeyPlan.withAuth Fixture.platform Fixture.clerk
    (UnkeyPlan.mkRequest (Some EmptyString) None)
    (UnkeyPlan.mkClerkAuth None None) 1500%Z Fixture.exporting =
  (inl (UnkeyPlan.mkResponse (Some "Unauthorized") 401), Fixture.exporting).
Proof.
  exact (proj1 (proj2 (proj2 (@withAuth_without_key Fixture.platform
                                Fixture.clerk
                                (UnkeyPlan.mkRequest (Some EmptyString) None)
                                (UnkeyPlan.mkClerkAuth None None) 1500%Z
                                Fixture.exporting (or_intror eq_refl)))
                  eq_refl)).
Defined.

Lemma protectedRoute_served_by_key_witness :
  fst (@UnkeyPlan.protectedRoute Fixture.platform Fixture.clerk "exports:write"
         (UnkeyPlan.mkRequest (Some (Fixture.secretOf Fixture.ones)) None)
         (UnkeyPlan.mkClerkAuth None None) 1500%Z Fixture.exporting) =
    inr (Some "org_xyz") /\
  exists k,
    fst (@Engine.verify Fixture.platform (Fixture.secretOf Fixture.ones) 1500%Z
           Fixture.exporting) = inr k /\
    Scopes.grants (Schema.scopes k) "exports:write".
Proof.
  split; [reflexivity |].
  destruct (@protectedRoute_served_by_key Fixture.platform Fixture.clerk
              "exports:write"
              (UnkeyPlan.mkRequest (Some (Fixture.secretOf Fixture.ones)) None)
              (UnkeyPlan.mkClerkAuth None None) 1500%Z Fixture.exporting
              (Some "org_xyz") eq_refl eq_refl)
    as (k & Hk & _ & Hgr & _).
  exists k. split; assumption.
Defined.

(** ** More on the server actions *)

Section ActionMore.
Import Schema Engine.
Import UnkeyPlan (ClerkAuth, userId, orgId, truthy, Outcome, Returned, Thrown,
                  mkClerkAuth).
Context `{Platform}.

Lemma find_map_id (f : APIKey -> APIKey) (keyId : string) (l : list APIKey) :
  (forall r, id (f r) = id r) ->
  find (fun r => String.eqb (id r) keyId) (map f l) =
  option_map f (find (fun r => String.eqb (id r) keyId) l).
Proof.
  intros Hid. induction l as [| r l IH]; [reflexivity |].
  cbn [map find]. rewrite Hid.
  now destruct (String.eqb (id r) keyId).
Qed.

Lemma truthy_Some (s : option string) :
  truthy s = true -> s = Some (orElse s "").
Proof. destruct s as [[| c r] |]; cbn; intros Ht; try discriminate; reflexivity. Qed.


(** X10. [revokeApiKey] of the Clerk + Unkey plan revokes a key exactly
    when it is an unrevoked key of the caller's owner (the organization
    when the session has one, else the user). An unknown key and a key of
    another owner both get "Forbidden" and leave the store as it is; an
    unrevoked key of the owner is revoked at the time of the call, the
    action returns, and what [get] finds under every other identifier is
    unchanged; and the action returns in no other case. *)
Theorem revokeApiKey_owner_only (sess : ClerkAuth) (keyId : string)
                                (now : Timestamp) (st : Store) :
  truthy (userId sess) = true ->
  ((get st keyId = None \/
    exists k, get st keyId = Some k /\
              subject k <> orElse (orgId sess) (orElse (userId sess) "")) ->
   UnkeyPlan.revokeApiKey sess keyId now st = (Thrown "Forbidden", st)) /\
  (forall k,
     get st keyId = Some k ->
     subject k = orElse (orgId sess) (orElse (userId sess) "") ->
     revokedAt k = None ->
     exists st' k',
       UnkeyPlan.revokeApiKey sess keyId now st = (Returned true, st') /\
       get st' keyId = Some k' /\
       revokedAt k' = Some now /\
       subject k' = subject k /\
       forall other, other <> keyId -> get st' other = get st other) /\
  (forall st',
     UnkeyPlan.revokeApiKey sess keyId now st = (Returned true, st') ->
     exists k,
       get st keyId = Some k /\
       subject k = orElse (orgId sess) (orElse (userId sess) "") /\
       revokedAt k = None).
Proof.
  intros Huser. unfold UnkeyPlan.revokeApiKey. rewrite Huser. cbn [negb].
  split; [| split].
  - intros [-> | (k & -> & Hne)]; [reflexivity |].
    apply String.eqb_neq in Hne. now rewrite Hne.
  - intros k Hget Hown Hrev. rewrite Hget.
    apply String.eqb_eq in Hown. rewrite Hown. cbn [negb].
    rewrite (revoke_success serviceActor keyId None now st k Hget Hrev).
    set (f := fun r => if String.eqb (id r) keyId && isNull (revokedAt r)
                       then setRevocation serviceActor None now r
                       else r).
    assert (Hfid : forall r, id (f r) = id r).
    { intros r. unfold f.
      now destruct (String.eqb (id r) keyId && isNull (revokedAt r)). }
    assert (Hfind : forall i, get (mkStore (map f (keys st)) (auditLog st ++
                      [eventOf st keyId ev_revoked (Some serviceActor) [] now])%list
                      (buckets st)) i = option_map f (get st i)).
    { intros i. unfold get, findById. cbn [keys]. now apply find_map_id. }
    apply findById_id in Hget as Hk. destruct Hk as [_ Hid].
    assert (Hfk : f k = setRevocation serviceActor None now k).
    { unfold f. now rewrite Hid, String.eqb_refl, Hrev. }
    eexists. exists (f k). split; [reflexivity |].
    split; [now rewrite Hfind, Hget |].
    split; [now rewrite Hfk |].
    split; [now rewrite Hfk |].
    intros other Hother. rewrite Hfind.
    destruct (get st other) as [r |] eqn:Hr; [| reflexivity].
    cbn [option_map]. f_equal. unfold f.
    apply findById_id in Hr as [_ Hrid].
    assert (Hneq : String.eqb (id r) keyId = false)
      by (apply String.eqb_neq; congruence).
    now rewrite Hneq.
  - intros st'. destruct (get st keyId) as [k |] eqn:Hget; [| discriminate].
    destruct (String.eqb (subject k) _) eqn:Hown; cbn [negb]; [| discriminate].
    apply String.eqb_eq in Hown.
    destruct (revokedAt k) as [t |] eqn:Hrev.
    + rewrite revoke_unfold. unfold get in Hget. rewrite Hget, Hrev.
      discriminate.
    + intros _. exists k. now repeat split.
Qed.


(** X12. When [createApiKey] of the Clerk + Unkey plan returns, the store
    holds under the returned [keyId] a key of the session's organization,
    or of its user when there is none, created by the session's user, with
    the requested name and scopes, unrevoked, carrying the hash and the
    prefix of the returned [key]; it expires [expiresIn] seconds after the
    call, and never when [expiresIn] is absent or 0. The instant is the one
    the source computes where its numbers are exact: the clock, the
    milliseconds and their sum are safe integers. *)
Theorem createApiKey_stored (sess : ClerkAuth) (data : UnkeyPlan.CreateData)
                            (newId : string) (entropy : option (list byte))
                            (now : Timestamp) (st st' : Store)
                            (res : UnkeyPlan.CreatedKey) :
  UnkeyPlan.createApiKey sess data newId entropy now st = (Returned res, st') ->
  (forall seconds, UnkeyPlan.expiresIn data = Some seconds ->
     Numbers.isSafeInteger now = true /\
     Numbers.isSafeInteger seconds = true /\
     Numbers.isSafeInteger (seconds * 1000) = true /\
     Numbers.isSafeInteger (now + seconds * 1000) = true) ->
  exists row,
    get st' (UnkeyPlan.keyId res) = Some row /\
    UnkeyPlan.keyId res = newId /\
    truthy (userId sess) = true /\
    subject row = orElse (orgId sess) (orElse (userId sess) "") /\
    Some (createdBy row) = userId sess /\
    name row = UnkeyPlan.dataName data /\
    scopes row = UnkeyPlan.dataScopes data /\
    revokedAt row = None /\
    keyHash row = hashSecret (UnkeyPlan.key res) /\
    keyPrefix row = KeyGen.prefixOf (UnkeyPlan.key res) /\
    expiresAt row =
      match UnkeyPlan.expiresIn data with
      | Some seconds =>
          if (seconds =? 0)%Z then None else Some (now + seconds * 1000)%Z
      | None => None
      end.
Proof.
  unfold UnkeyPlan.createApiKey.
  destruct (truthy (userId sess)) eqn:Huser; cbn [negb]; [| discriminate].
  match goal with
  | |- context [create ?r newId entropy now st] =>
      destruct (create r newId entropy now st) as [[e | [row plain]] st1]
        eqn:Hcreate
  end; [discriminate |].
  intros Hres _. injection Hres as <- <-.
  apply create_success in Hcreate as (bytes & _ & Hrow & Hplain & Hget).
  exists row. cbn [UnkeyPlan.keyId UnkeyPlan.key].
  assert (Hid : id row = newId) by now rewrite Hrow.
  rewrite Hid. split; [exact Hget |]. split; [reflexivity |].
  split; [reflexivity |].
  rewrite Hrow, Hplain. cbn [rowOf subject createdBy name scopes revokedAt
    keyHash keyPrefix expiresAt reqSubject reqActor reqName reqScopes reqExpiry].
  repeat (split; [reflexivity |]).
  split; [symmetry; now apply truthy_Some |].
  repeat (split; [reflexivity |]). reflexivity.
Qed.

(** X13. [createApiKey] of the Clerk-only plan throws, and writes nothing,
    unless the session has both a user and an organization. When it
    returns, the store holds under the returned [id] a key of that
    organization created by that user, with the requested scopes, or none
    when the scopes are omitted, and the returned [secret] is the one
    whose hash the key carries; the key expires [expiresInDays] days
    after the call, and never when [expiresInDays] is absent or 0. The
    seconds handed to the service are the ones the source computes where
    its numbers are exact: the days and their seconds are safe integers. *)
Theorem createApiKey_clerk_stored (sess : ClerkAuth)
                                  (data : ClerkActions.CreateData)
                                  (newId : string)
                                  (entropy : option (list byte))
                                  (now : Timestamp) (st : Store) :
  (truthy (userId sess) = false \/ truthy (orgId sess) = false ->
   ClerkActions.createApiKey sess data newId entropy now st =
   (Thrown "Must be in an organization to create API keys", st)) /\
  (forall st' res,
     ClerkActions.createApiKey sess data newId entropy now st =
       (Returned res, st') ->
     (forall days, ClerkActions.expiresInDays data = Some days ->
        Numbers.isSafeInteger days = true /\
        Numbers.isSafeInteger (days * 24 * 60 * 60) = true) ->
     exists row,
       get st' (ClerkActions.createdId res) = Some row /\
       Some (subject row) = orgId sess /\
       subjectType row = organization /\
       Some (createdBy row) = userId sess /\
       scopes row = orElse (ClerkActions.dataScopes data) [] /\
       keyHash row = hashSecret (ClerkActions.secret res) /\
       ClerkActions.secondsUntilExpiration (ClerkActions.expiresInDays data) =
         match ClerkActions.expiresInDays data with
         | Some days => if (days =? 0)%Z then None else Some (days * 86400)%Z
         | None => None
         end /\
       expiresAt row =
         match ClerkActions.expiresInDays data with
         | Some days =>
             if (days =? 0)%Z then None
             else Some (now + days * 86400000)%Z
         | None => None
         end).
Proof.
  unfold ClerkActions.createApiKey. split.
  - intros [-> | ->]; cbn [negb orb]; [reflexivity |].
    now destruct (negb (truthy (userId sess))).
  - intros st' res.
    destruct (truthy (userId sess)) eqn:Huser; cbn [negb orb]; [| discriminate].
    destruct (truthy (orgId sess)) eqn:Horg; cbn [negb]; [| discriminate].
    match goal with
    | |- context [create ?r newId entropy now st] =>
        destruct (create r newId entropy now st) as [[e | [row plain]] st1]
          eqn:Hcreate
    end; [discriminate |].
    intros Hres _. injection Hres as <- <-.
    apply create_success in Hcreate as (bytes & _ & Hrow & Hplain & Hget).
    exists row. cbn [ClerkActions.createdId ClerkActions.secret].
    assert (Hid : id row = newId) by now rewrite Hrow.
    rewrite Hid. split; [exact Hget |].
    rewrite Hrow, Hplain. cbn [rowOf subject subjectType createdBy scopes
      keyHash expiresAt reqSubject reqSubjectType reqActor reqScopes reqExpiry].
    split; [symmetry; now apply truthy_Some |]. split; [reflexivity |].
    split; [symmetry; now apply truthy_Some |]. split; [reflexivity |].
    split; [reflexivity |].
    unfold ClerkActions.secondsUntilExpiration.
    destruct (ClerkActions.expiresInDays data) as [days |];
      [| split; reflexivity].
    destruct (days =? 0)%Z; [split; reflexivity |].
    split; f_equal; lia.
Qed.

End ActionMore.

Lemma revokeApiKey_owner_only_witness :
  UnkeyPlan.truthy (UnkeyPlan.userId Fixture.interactive) = true /\
  exists st' k',
    @UnkeyPlan.revokeApiKey Fixture.platform Fixture.interactive "key_1"
      3000%Z Fixture.created = (UnkeyPlan.Returned true, st') /\
    Engine.get st' "key_1" = Some k' /\
    Schema.revokedAt k' = Some 3000%Z.
Proof.
  split; [reflexivity |].
  destruct (proj1 (proj2 (@revokeApiKey_owner_only Fixture.platform
                            Fixture.interactive "key_1" 3000%Z Fixture.created
                            eq_refl))
              _ eq_refl eq_refl eq_refl)
    as (st' & k' & Hres & Hget & Hrev & _).
  exists st', k'. split; [exact Hres |]. split; [exact Hget | exact Hrev].
Defined.


Lemma createApiKey_stored_witness :
  exists res st',
    @UnkeyPlan.createApiKey Fixture.platform Fixture.interactive
      (UnkeyPlan.mkCreateData "CI" ["projects:read"] (Some 60%Z)) "key_7"
      (Some Fixture.ones) 1000%Z Fixture.created = (UnkeyPlan.Returned res, st') /\
    exists row,
      Engine.get st' "key_7" = Some row /\
      Schema.expiresAt row = Some 61000%Z.
Proof.
  eexists. eexists. split; [reflexivity |].
  destruct (@createApiKey_stored Fixture.platform Fixture.interactive
              (UnkeyPlan.mkCreateData "CI" ["projects:read"] (Some 60%Z)) "key_7"
              (Some Fixture.ones) 1000%Z Fixture.created _ _ eq_refl)
    as (row & Hget & _ & _ & _ & _ & _ & _ & _ & _ & _ & Hexp).
  - intros seconds Hs. injection Hs as <-. repeat split; reflexivity.
  - exists row. split; [exact Hget | exact Hexp].
Defined.

Lemma createApiKey_clerk_stored_witness :
  exists res st',
    @ClerkActions.createApiKey Fixture.platform Fixture.interactive
      (ClerkActions.mkCreateData "CI" None (Some 30%Z)) "key_7"
      (Some Fixture.ones) 1000%Z Fixture.created =
    (UnkeyPlan.Returned res, st') /\
    exists row,
      Engine.get st' "key_7" = Some row /\
      Schema.expiresAt row = Some 2592001000%Z.
Proof.
  eexists. eexists. split; [reflexivity |].
  destruct (proj2 (@createApiKey_clerk_stored Fixture.platform
                     Fixture.interactive
                     (ClerkActions.mkCreateData "CI" None (Some 30%Z)) "key_7"
                     (Some Fixture.ones) 1000%Z Fixture.created)
              _ _ eq_refl)
    as (row & Hget & _ & _ & _ & _ & _ & _ & Hexp).
  - intros days Hd. injection Hd as <-. split; reflexivity.
  - exists row. split; [exact Hget | exact Hexp].
Defined.

(** ** The webhook *)

Section WebhookFacts.
Import Schema Engine ClerkWebhook.
Context `{Platform}.

(** A creation that fails adds no key and no audit event. *)
Lemma create_failure (req : CreateRequest) (newId : string)
                     (entropy : option (list byte)) (now : Timestamp)
                     (st st' : Store) (e : Error) :
  create req newId entropy now st = (inl e, st') ->
  keys st' = keys st /\ auditLog st' = auditLog st.
Proof.
  rewrite create_unfold.
  destruct (negb (authorizedOn (reqActor req) (reqSubject req))).
  { intros Hres. injection Hres as _ <-. now split. }
  pose proof (checkAndConsume_frame creationCapacity creationInterval
                ("create:" ++ reqSubject req) 1 now st) as Hframe.
  destruct (checkAndConsume creationCapacity creationInterval
              ("create:" ++ reqSubject req) 1 now st) as [[e1 | u] st1];
    cbn [snd] in Hframe.
  { intros Hres. injection Hres as _ <-. exact Hframe. }
  destruct entropy as [bytes |].
  2: { intros Hres. injection Hres as _ <-. exact Hframe. }
  destruct (existsb (fun r => String.eqb (id r) newId) (keys st1));
    [| discriminate].
  intros Hres. injection Hres as _ <-. exact Hframe.
Qed.

(** X14. The webhook route answers 400, and writes nothing, exactly when
    the verification of the webhook failed. Every verified event is
    answered 200 "OK": an event other than [organization.created] writes
    nothing; for [organization.created] a default key is requested, and
    when the creation succeeds the new organization holds a key named
    "Default API Key" with the scopes ["projects:read"] and
    ["exports:read"], created by the organization's creator and without
    expiry, while a creation that fails adds no key and still is answered
    200. *)
Theorem webhook_POST_outcome (verified : option WebhookEvent) (newId : string)
                             (entropy : option (list byte)) (now : Timestamp)
                             (st : Store) :
  (responseStatus (fst (POST verified newId entropy now st)) = 400 <->
   verified = None) /\
  (verified = None -> snd (POST verified newId entropy now st) = st) /\
  (forall event, verified = Some event ->
     fst (POST verified newId entropy now st) = mkTextResponse "OK" 200 /\
     (eventType event <> "organization.created" ->
      snd (POST verified newId entropy now st) = st) /\
     (eventType event = "organization.created" ->
      (forall row secret st1,
         create (defaultKeyRequest (eventData event)) newId entropy now st =
           (inr (row, secret), st1) ->
         snd (POST verified newId entropy now st) = st1 /\
         get st1 newId = Some row /\
         subject row = orgDataId (eventData event) /\
         createdBy row = created_by (eventData event) /\
         name row = "Default API Key" /\
         scopes row = ["projects:read"; "exports:read"] /\
         expiresAt row = None) /\
      (forall e st1,
         create (defaultKeyRequest (eventData event)) newId entropy now st =
           (inl e, st1) ->
         snd (POST verified newId entropy now st) = st1 /\
         keys st1 = keys st))).
Proof.
  split; [| split].
  - unfold POST. destruct verified as [event |].
    + split; [| discriminate].
      destruct (String.eqb (eventType event) "organization.created").
      * destruct (create _ newId entropy now st) as [[e | r] st1];
          cbn; discriminate.
      * cbn. discriminate.
    + now split.
  - now intros ->.
  - intros event ->. unfold POST.
    destruct (String.eqb (eventType event) "organization.created") eqn:Htype.
    + apply String.eqb_eq in Htype. split; [| split].
      * now destruct (create _ newId entropy now st) as [[e | r] st1].
      * intros Hne. contradiction.
      * intros _. split.
        -- intros row secret st1 Hcreate. rewrite Hcreate. cbn [snd].
           split; [reflexivity |].
           apply create_success in Hcreate as (bytes & _ & Hrow & _ & Hget).
           split; [exact Hget |]. rewrite Hrow. repeat split.
        -- intros e st1 Hcreate. rewrite Hcreate. cbn [snd].
           split; [reflexivity |]. now apply create_failure in Hcreate.
    + apply String.eqb_neq in Htype. split; [reflexivity |].
      split; [reflexivity |]. intros Heq. contradiction.
Qed.

End WebhookFacts.

Lemma webhook_POST_outcome_witness :
  let event := ClerkWebhook.mkWebhookEvent "organization.created"
                 (ClerkWebhook.mkOrganizationData "org_new" "New Org" "user_abc123") in
  fst (@ClerkWebhook.POST Fixture.platform (Some event) "key_9"
         (Some Fixture.ones) 1000%Z Fixture.created) =
    ClerkWebhook.mkTextResponse "OK" 200 /\
  fst (@ClerkWebhook.POST Fixture.platform (Some event) "key_1"
         (Some Fixture.ones) 1000%Z Fixture.created) =
    ClerkWebhook.mkTextResponse "OK" 200.
Proof.
  intros event. split.
  - exact (proj1 (proj2 (proj2 (@webhook_POST_outcome Fixture.platform
                                  (Some event) "key_9" (Some Fixture.ones)
                                  1000%Z Fixture.created)) event eq_refl)).
  - exact (proj1 (proj2 (proj2 (@webhook_POST_outcome Fixture.platform
                                  (Some event) "key_1" (Some Fixture.ones)
                                  1000%Z Fixture.created)) event eq_refl)).
Defined.

(** ** The dashboard's scope field *)

Section DashboardFacts.
Import Schema Engine Dashboard.
Import UnkeyPlan (ClerkAuth, userId, orgId, truthy, Returned, Thrown).
Context `{Platform}.

Lemma split_comma_cons (c : ascii) (rest : string) :
  Scopes.split "," (String c rest) =
  if Ascii.eqb c ","
  then EmptyString :: Scopes.split "," rest
  else match Scopes.split "," rest with
       | [] => [String c EmptyString]
       | w :: ws => String c w :: ws
       end.
Proof. reflexivity. Qed.

Lemma split_comma_nonempty (s : string) : Scopes.split "," s <> [].
Proof.
  destruct s as [| c rest]; [discriminate |].
  rewrite split_comma_cons. destruct (Ascii.eqb c ","); [discriminate |].
  destruct (Scopes.split "," rest); discriminate.
Qed.

(** A text without comma is one piece. *)
Lemma split_comma_whole (s : string) :
  noComma s = true -> Scopes.split "," s = [s].
Proof.
  induction s as [| c rest IH]; [reflexivity |].
  cbn [noComma]. intros Hno. apply andb_prop in Hno as [Hc Hrest].
  apply negb_true_iff in Hc. rewrite split_comma_cons, Hc.
  now rewrite (IH Hrest).
Qed.

(** A comma ends the first piece. *)
Lemma split_comma_piece (piece rest : string) :
  noComma piece = true ->
  Scopes.split "," (piece ++ String "," rest) = piece :: Scopes.split "," rest.
Proof.
  induction piece as [| c p IH]; [reflexivity |].
  cbn [noComma append]. intros Hno. apply andb_prop in Hno as [Hc Hp].
  apply negb_true_iff in Hc. rewrite split_comma_cons, Hc.
  now rewrite (IH Hp).
Qed.

Lemma split_comma_pieces (s : string) :
  Forall (fun piece => noComma piece = true) (Scopes.split "," s).
Proof.
  induction s as [| c rest IH]; [repeat constructor |].
  rewrite split_comma_cons. destruct (Ascii.eqb c ",") eqn:Hc.
  - constructor; [reflexivity | exact IH].
  - destruct (Scopes.split "," rest) as [| w ws]; [repeat constructor; cbn;
      now rewrite Hc |].
    inversion IH as [| ? ? Hw Hws]; subst.
    constructor; [cbn [noComma]; now rewrite Hc, Hw | exact Hws].
Qed.

Lemma split_comma_join (l : list string) :
  l <> [] ->
  Forall (fun piece => noComma piece = true) l ->
  Scopes.split "," (String.concat "," l) = l.
Proof.
  intros Hne Hall. induction Hall as [| piece l Hpiece Hall IH];
    [now elim Hne |].
  destruct l as [| next l].
  - cbn [String.concat]. now apply split_comma_whole.
  - cbn [String.concat]. cbn [String.concat] in IH.
    change ("," ++ ?x) with (String "," x).
    rewrite (split_comma_piece piece _ Hpiece). f_equal.
    apply IH. discriminate.
Qed.

(** X15. Scopes written into the form field with commas between them are
    read back as they were: for every list of non-empty scopes without
    comma, parsing the list joined by commas gives the list, with its
    order and its repetitions; the empty list is written as the empty
    field. *)
Theorem parseScopes_join (l : list string) :
  Forall (fun scope => nonEmpty scope = true /\ noComma scope = true) l ->
  parseScopes (Some (String.concat "," l)) = Some l.
Proof.
  intros Hall. cbn [parseScopes]. f_equal.
  destruct l as [| first l]; [reflexivity |].
  rewrite split_comma_join.
  - induction Hall as [| scope rest [Hne _] _ IH]; [reflexivity |].
    cbn [filter]. now rewrite Hne, IH.
  - discriminate.
  - eapply Forall_impl; [| exact Hall]. now intros scope [_ Hno].
Qed.

Lemma parseScopes_join_witness :
  Forall (fun scope => nonEmpty scope = true /\ noComma scope = true)
    ["projects:read"; "exports:write"] /\
  parseScopes (Some "projects:read,exports:write") =
    Some ["projects:read"; "exports:write"].
Proof.
  assert (Hall : Forall (fun scope => nonEmpty scope = true /\ noComma scope = true)
                   ["projects:read"; "exports:write"])
    by (repeat constructor).
  split; [exact Hall |].
  exact (parseScopes_join ["projects:read"; "exports:write"] Hall).
Defined.

(** X16. Whatever is typed into the scope field, no scope read from it is
    empty and none contains a comma: doubled, leading and trailing commas
    add nothing. Blanks are kept as typed, as part of the scope. *)
Theorem parseScopes_clean (field : option string) (l : list string) :
  parseScopes field = Some l ->
  Forall (fun scope => nonEmpty scope = true /\ noComma scope = true) l /\
  (forall text, field = Some text -> noComma text = true ->
     l = if nonEmpty text then [text] else []).
Proof.
  destruct field as [text |]; cbn [parseScopes]; [| discriminate].
  intros Hl. injection Hl as <-. split.
  - apply Forall_forall. intros scope Hin.
    apply filter_In in Hin as [Hin Hne]. split; [exact Hne |].
    pose proof (split_comma_pieces text) as Hall.
    rewrite Forall_forall in Hall. now apply Hall.
  - intros text' Heq Hno. injection Heq as <-.
    rewrite (split_comma_whole text Hno). reflexivity.
Qed.

Lemma parseScopes_clean_witness :
  parseScopes (Some ",projects:read,, exports:write,") =
    Some ["projects:read"; " exports:write"] /\
  Forall (fun scope => nonEmpty scope = true /\ noComma scope = true)
    ["projects:read"; " exports:write"].
Proof.
  split; [reflexivity |].
  exact (proj1 (parseScopes_clean (Some ",projects:read,, exports:write,")
                  ["projects:read"; " exports:write"] eq_refl)).
Defined.

(** X17. The page shows a secret only of a key that was stored: when
    [handleCreate] sets [newKeySecret], the store holds the new key, with
    the hash of the secret shown and the scopes read from the form field
    (none when the field is missing); when the creation throws, the
    secret shown before stays and no key is added. *)
Theorem handleCreate_outcome (sess : ClerkAuth) (formData : FormData)
                             (newKeySecret : option string) (newId : string)
                             (entropy : option (list byte)) (now : Timestamp)
                             (st st' : Store) (shown : option string) :
  handleCreate sess formData newKeySecret newId entropy now st = (shown, st') ->
  (shown = newKeySecret /\ keys st' = keys st) \/
  (exists row plain,
     shown = Some plain /\
     get st' newId = Some row /\
     keyHash row = hashSecret plain /\
     scopes row = orElse (parseScopes (formScopes formData)) []).
Proof.
  unfold handleCreate.
  destruct (ClerkActions.createApiKey sess _ newId entropy now st)
    as [[res | message] st1] eqn:Haction;
    intros Hres; injection Hres as <- <-.
  - right. revert Haction. unfold ClerkActions.createApiKey.
    destruct (negb (truthy (userId sess)) || negb (truthy (orgId sess)));
      [discriminate |].
    match goal with
    | |- context [create ?r newId entropy now st] =>
        destruct (create r newId entropy now st) as [[e | [row plain]] st2]
          eqn:Hcreate
    end; [discriminate |].
    intros Hres. injection Hres as <- <-.
    apply create_success in Hcreate as (bytes & _ & Hrow & Hplain & Hget).
    exists row, plain. split; [reflexivity |]. split; [exact Hget |].
    rewrite Hrow, Hplain. split; reflexivity.
  - left. split; [reflexivity |]. revert Haction.
    unfold ClerkActions.createApiKey.
    destruct (negb (truthy (userId sess)) || negb (truthy (orgId sess))).
    { intros Hres. now injection Hres as _ <-. }
    match goal with
    | |- context [create ?r newId entropy now st] =>
        destruct (create r newId entropy now st) as [[e | [row plain]] st2]
          eqn:Hcreate
    end; [| discriminate].
    intros Hres. injection Hres as _ <-.
    now apply create_failure in Hcreate.
Qed.

End DashboardFacts.

Lemma handleCreate_outcome_witness :
  exists shown st',
    @Dashboard.handleCreate Fixture.platform Fixture.interactive
      (Dashboard.mkFormData (Some "CI") (Some "projects:read,exports:write"))
      None "key_8" (Some Fixture.ones) 1000%Z Fixture.created = (shown, st') /\
    exists row,
      Engine.get st' "key_8" = Some row /\
      Schema.scopes row = ["projects:read"; "exports:write"].
Proof.
  eexists. eexists. split; [reflexivity |].
  destruct (@handleCreate_outcome Fixture.platform Fixture.interactive
              (Dashboard.mkFormData (Some "CI") (Some "projects:read,exports:write"))
              None "key_8" (Some Fixture.ones) 1000%Z Fixture.created _ _ eq_refl)
    as [[Hsame _] | (row & plain & _ & Hget & _ & Hscopes)].
  - discriminate Hsame.
  - exists row. split; [exact Hget | exact Hscopes].
Defined.

(** ** The showcase carousel *)

Section ShowcaseFacts.
Import Showcase.
#[local] Open Scope Z_scope.

(** X18. The arrows of the carousel walk a cycle over the items: from an
    index of an item, [goToNext] and [goToPrevious] give the index of an
    item again, each undoes the other, the last item is followed by the
    first and the first preceded by the last; and the scroll position
    handed on for an item lies within the strip of items. *)
Theorem carousel_cycle (activeIndex : Z) :
  0 <= activeIndex < itemCount ->
  0 <= goToNext activeIndex < itemCount /\
  0 <= goToPrevious activeIndex < itemCount /\
  goToPrevious (goToNext activeIndex) = activeIndex /\
  goToNext (goToPrevious activeIndex) = activeIndex /\
  (goToNext activeIndex = 0 <-> activeIndex = itemCount - 1) /\
  (goToPrevious activeIndex = itemCount - 1 <-> activeIndex = 0) /\
  (forall itemWidth, 0 <= itemWidth ->
     0 <= scrollToIndex itemWidth (goToNext activeIndex)
       <= (itemCount - 1) * itemWidth).
Proof.
  change itemCount with 4. intros Hrange.
  assert (Hcases : activeIndex = 0 \/ activeIndex = 1 \/
                   activeIndex = 2 \/ activeIndex = 3) by lia.
  destruct Hcases as [-> | [-> | [-> | ->]]];
    unfold scrollToIndex;
    repeat match goal with
           | |- context [goToNext ?c] =>
               let v := eval vm_compute in (goToNext c) in
               change (goToNext c) with v
           | |- context [goToPrevious ?c] =>
               let v := eval vm_compute in (goToPrevious c) in
               change (goToPrevious c) with v
           end;
    (split; [lia |]); (split; [lia |]); (split; [reflexivity |]);
    (split; [reflexivity |]); (split; [split; intros; lia |]);
    (split; [split; intros; lia |]); intros itemWidth Hw; lia.
Qed.

Lemma carousel_cycle_witness :
  0 <= 3 < itemCount /\ goToNext 3 = 0 /\ goToPrevious 0 = 3.
Proof.
  assert (Hrange : 0 <= 3 < itemCount) by (cbn; lia).
  split; [exact Hrange |].
  destruct (carousel_cycle 3 Hrange) as (_ & _ & _ & _ & Hnext & _).
  split; [now apply Hnext | reflexivity].
Defined.

End ShowcaseFacts.

(** ** From creation to authentication and listing *)

Section RoundTrip.
Import Schema Engine UnkeyPlan.
Context `{Platform} `{IdentityProvider}.

(** A creation that succeeds appends its row to the table. *)
Lemma create_success_keys (req : CreateRequest) (newId : string)
                          (entropy : option (list byte)) (now : Timestamp)
                          (st st' : Store) (row : APIKey) (plain : string) :
  create req newId entropy now st = (inr (row, plain), st') ->
  keys st' = (keys st ++ [row])%list.
Proof.
  rewrite create_unfold.
  destruct (negb (authorizedOn (reqActor req) (reqSubject req)));
    [discriminate |].
  pose proof (checkAndConsume_frame creationCapacity creationInterval
                ("create:" ++ reqSubject req) 1 now st) as [Hk _].
  destruct (checkAndConsume creationCapacity creationInterval
              ("create:" ++ reqSubject req) 1 now st) as [[e | u] st1];
    [discriminate |].
  cbn [snd] in Hk.
  destruct entropy as [bytes |]; [| discriminate].
  destruct (existsb (fun r => String.eqb (id r) newId) (keys st1));
    [discriminate |].
  intros Hres. injection Hres as <- _ <-. cbn [keys]. now rewrite Hk.
Qed.

Lemma find_app_none {A : Type} (p : A -> bool) (l1 l2 : list A) :
  find p l1 = None -> find p (l1 ++ l2)%list = find p l2.
Proof.
  induction l1 as [| x l1 IH]; [reflexivity |].
  cbn [find app]. destruct (p x); [discriminate | exact IH].
Qed.

(** The secret of a new key resolves to the new key when no key held
    before answers to it. *)
Lemma matchCandidate_created (st st' : Store) (row : APIKey) (plain : string) :
  keys st' = (keys st ++ [row])%list ->
  keyHash row = hashSecret plain ->
  keyPrefix row = KeyGen.prefixOf plain ->
  matchCandidate st plain = None ->
  matchCandidate st' plain = Some row.
Proof.
  unfold matchCandidate, findByPrefix. intros Hkeys Hhash Hprefix Hnone.
  rewrite Hkeys, filter_app, (find_app_none _ _ _ Hnone).
  cbn [filter]. rewrite Hprefix, String.eqb_refl. cbn [find].
  now rewrite Hhash, String.eqb_refl.
Qed.

(** X19. A key that [createApiKey] returned authenticates: presented to
    [authenticateApiKey] at any later time before its expiry, on the
    store the creation left, it is accepted with the session's user, the
    session's organization and exactly the scopes it was created with,
    provided no key held before answers to the same secret, the user
    still exists and is still a member of the organization. *)
Theorem created_key_authenticates (sess : ClerkAuth) (data : CreateData)
                                  (newId : string)
                                  (entropy : option (list byte))
                                  (now later : Timestamp) (st st' : Store)
                                  (res : CreatedKey) :
  createApiKey sess data newId entropy now st = (Returned res, st') ->
  matchCandidate st (key res) = None ->
  (forall uid, userId sess = Some uid -> getUser uid = true) ->
  (forall uid org, userId sess = Some uid -> orgId sess = Some org ->
     org <> EmptyString ->
     exists memberships,
       getOrganizationMembershipList uid = Some memberships /\
       In org memberships) ->
  (forall seconds, expiresIn data = Some seconds -> seconds <> 0%Z ->
     (later < now + seconds * 1000)%Z) ->
  fst (authenticateApiKey (key res) later st') =
    mkApiKeyAuthResult true (userId sess) (orgId sess)
      (Some (dataScopes data)) None.
Proof.
  intros Hcreate Hfresh Huser Hmember Hexp.
  unfold createApiKey in Hcreate.
  destruct (truthy (userId sess)) eqn:Ht; cbn [negb] in Hcreate;
    [| discriminate].
  pose proof (truthy_Some (userId sess) Ht) as Huid.
  set (uid := orElse (userId sess) "") in *.
  match type of Hcreate with
  | context [create ?r newId entropy now st] =>
      destruct (create r newId entropy now st) as [[e | [row plain]] st1]
        eqn:Hc
  end; [discriminate |].
  injection Hcreate as <- <-. cbn [key] in *.
  pose proof (create_success_keys _ _ _ _ _ _ _ _ Hc) as Hkeys.
  apply create_success in Hc as (bytes & _ & Hrow & Hplain & _).
  assert (Hmatch : matchCandidate st1 plain = Some row).
  { apply (matchCandidate_created st st1 row plain Hkeys);
      [now rewrite Hrow, Hplain | now rewrite Hrow, Hplain | exact Hfresh]. }
  assert (Hverify : exists st2, verify plain later st1 = (inr row, st2)).
  { assert (Hrev : revokedAt row = None) by now rewrite Hrow.
    assert (Hexpires : expiresAt row =
              match expiresIn data with
              | Some n => if (n =? 0)%Z then None else Some (now + n * 1000)%Z
              | None => None
              end) by now rewrite Hrow.
    rewrite verify_unfold, Hmatch, Hrev. unfold isExpired. rewrite Hexpires.
    cbn [isNull negb].
    destruct (expiresIn data) as [seconds |]; [| now eexists].
    destruct (seconds =? 0)%Z eqn:Hz; [now eexists |].
    apply Z.eqb_neq in Hz. specialize (Hexp seconds eq_refl Hz).
    assert (Hle : (now + seconds * 1000 <=? later)%Z = false)
      by (apply Z.leb_gt; lia).
    rewrite Hle. now eexists. }
  destruct Hverify as [st2 Hverify].
  rewrite (authenticateApiKey_verified plain later st1 st2 row Hverify).
  cbv zeta. cbn [fst].
  assert (Hcb : createdBy row = uid) by now rewrite Hrow.
  assert (Hsc : scopes row = dataScopes data) by now rewrite Hrow.
  assert (Hsub : subject row = orElse (orgId sess) uid) by now rewrite Hrow.
  assert (Hty : subjectType row =
                match orgId sess with Some _ => organization | None => user end)
    by now rewrite Hrow.
  rewrite Hcb, Hsc, Hsub, Hty, (Huser uid Huid). cbn [negb]. rewrite <- Huid.
  destruct (orgId sess) as [org |] eqn:Horg; cbn [orElse]; [| reflexivity].
  destruct org as [| c rest]; cbn [truthy]; [reflexivity |].
  destruct (Hmember uid (String c rest) Huid eq_refl) as (ms & Hms & Hin);
    [discriminate |].
  rewrite Hms. apply existsb_eqb_In in Hin. now rewrite Hin.
Qed.





End RoundTrip.

Lemma created_key_authenticates_witness :
  exists res st',
    @UnkeyPlan.createApiKey Fixture.platform Fixture.interactive
      (UnkeyPlan.mkCreateData "CI" ["assets:read"] (Some 60%Z)) "key_7"
      (Some Fixture.ones) 1000%Z Fixture.created = (UnkeyPlan.Returned res, st') /\
    fst (@UnkeyPlan.authenticateApiKey Fixture.platform Fixture.clerk
           (UnkeyPlan.key res) 60999%Z st') =
    UnkeyPlan.mkApiKeyAuthResult true (Some "user_abc123") (Some "org_xyz")
      (Some ["assets:read"]) None.
Proof.
  eexists. eexists. split; [reflexivity |].
  apply (@created_key_authenticates Fixture.platform Fixture.clerk
           Fixture.interactive
           (UnkeyPlan.mkCreateData "CI" ["assets:read"] (Some 60%Z)) "key_7"
           (Some Fixture.ones) 1000%Z 60999%Z Fixture.created _ _ eq_refl).
  - reflexivity.
  - reflexivity.
  - intros uid org _ Horg _. injection Horg as <-.
    exists ["org_xyz"]. split; [reflexivity | now left].
  - intros seconds Hs _. injection Hs as <-. lia.
Defined.

